(* ===== verification/_CoqProject ===== *)
-Q . S2P
Prelude.v
Types.v
Fetch.v
Timing.v
Race.v
RaceInv.v
RaceProps.v
Simple.v
Variants.v
Render.v
