(* ===== verification/Prelude.v ===== *)
(** * A verification development of golang-multithreading

    The repository resolves a Brazilian postal code (CEP) by racing two
    HTTP lookups, BrasilAPI and ViaCEP, against a one-second deadline.
    There are two variants of the same program:

    - [src/main.go] (the "timing" variant): [main] checks its argument,
      creates a context with a 1s timeout, a result channel of capacity 2,
      a [sync.WaitGroup] with counter 2 and a [map[string]time.Duration]
      guarded by a [sync.Mutex].  It starts [fetchBrasilAPI] and
      [fetchViaCEP] as goroutines, then [select]s between the first channel
      value and [ctx.Done()].  On an error or the timeout it prints one line
      and returns.  On a success it prints the winner and its address,
      starts a detached goroutine that waits on the WaitGroup, locks the
      mutex and prints the fastest/slowest comparison, then drains one more
      channel value or gives up after 100ms, sleeps 200ms and returns
      (which ends the process and every goroutine).
    - [src/unnamed/part_000] (the "simple" variant): the same race without
      durations, WaitGroup, mutex or comparison; [main] returns right
      after its one [select].

    Each fetch goroutine runs a straight-line chain of fallible calls
    ([http.NewRequestWithContext], [client.Do], the status check,
    [io.ReadAll], [json.Unmarshal]) and on every path sends exactly one
    [Response]; on success it first stores its duration in the shared map
    under the mutex.  Its deferred [wg.Done()] runs last.

    ** Files

    - [Prelude.v] (this file): the [result] error monad for Go's
      [(value, err)] returns, with its [let?] notation in [go_scope];
      the range of a [time.Since] reading; the [race_rw] and [string_rw]
      rewrite databases and the tactics shared by the other files; lemmas on
      list counting and string concatenation; [Z_range] for properties
      checked by evaluation on every integer of a range.
    - [Types.v]: the structs [BrasilAPICEP], [ViaCEP] and [Response]
      (main.go 14-44), Go's [error] values, the tagged union behind
      [Data interface{}], the two backends with their API names, and the
      address fields the type switch of [main] prints (main.go 84-91);
      [resp_wf], the typing discipline of [Data interface{}].
    - [Fetch.v]: the Lookup Task.  [fetchBrasilAPI] and [fetchViaCEP]
      (main.go 146-238) are functions from the observed results of their
      external calls ([Obs]) to the script of shared-state actions they
      then perform: [mu.Lock], the map store, [mu.Unlock], the channel
      send and the deferred [wg.Done].  [fetch_chain] is the chain of
      checks in the [result] monad.  Theorems: [fetch_chain_spec] (the
      error of the first failing check, on every branch), [fetch_contract]
      (one send with the right name and duration; a store exactly on
      success; no send under the lock; [wg.Done] once and last) and
      [fetch_sends_result] (the sent [Error] and [Data], field by field,
      from the outcome of the chain).
    - [Timing.v]: the comparison of the detached goroutine (main.go
      106-133) as a fold of the loop body over a Go map iteration order,
      which Go leaves unspecified: any permutation of the map's bindings.
      Theorems: the loop computes a least and a greatest binding for every
      order ([range_extremes_correct]); the printed times do not depend on
      the order ([range_extremes_order_independent]); the two-entry case
      names the faster entry fastest and the slower slowest, with their
      durations ([compare_two_timings]); fewer than two entries give
      "unavailable".  The printed difference is not stored: it is the
      float subtraction of [Render.v].
    - [Race.v]: the whole timing variant as an executable interleaving
      semantics.  A [World] holds both fetch goroutines (a script and a
      program counter each), [main]'s and the aggregator's control points,
      the channel buffer, every value ever sent and received, the
      WaitGroup counter, the mutex owner, the timing map, the context flag
      and the printed lines.  [exec_event] performs one scheduling event:
      an atomic step of one goroutine, or a timer firing; it returns
      [None] when the event is not enabled (a blocked operation), when Go
      would panic (negative WaitGroup counter, unlock of an unlocked
      mutex), or once [main] has returned.  [run] runs a schedule.  The
      relational [gstep]/[reachable] is the same semantics as rules
      (the two agree, [reachable_run]), used for rule induction.  Module [Samples] holds
      concrete observations and schedules used by the witnesses.
    - [RaceInv.v]: [shared_inv], the invariant of the shared state: each
      script is a fetch's script, the channel holds the sent values not
      yet received, every backend's sends are those its script has
      performed, the WaitGroup counter counts the pending [wg.Done]s, the
      mutex owner is the goroutine in its critical section, the timing map
      holds the stores performed, and the aggregator starts only after
      [main] has received a success.  Preserved by every event, one lemma
      per event kind ([shared_inv_run]).
    - [RaceProps.v]: the properties of the race, proved from [shared_inv]
      and from [main_inv], the invariant of what [main] has printed:
      a send never blocks; a fetch is only blocked by the other fetch's
      critical section; one response per backend; the first response sent
      is the one reported; an error response is final (no fallback); the
      aggregator reads the final map, and the comparison it prints
      reflects both fetches; mutual exclusion; the timeout line; every
      schedule has at most 19 events; the program never deadlocks before
      [main] returns; every [Response] sent is well typed
      ([sent_responses_typed]) so a successful report always prints the
      address of the struct of the API it names; the per-API lines of the
      comparison read back exactly the stored durations
      ([comparison_lists_stored]).  Two schedules show behaviours the spec does not
      promise: the comparison may never be printed, and [main] may take
      the deadline although a response is already buffered.
    - [Simple.v]: the simple variant part_000 with its
      own [Response] (no [Duration]), fetch functions built on the same
      [fetch_chain], and an executable semantics [sexec]/[srun] in which
      a fetch's calls and its one send are a single event (it shares no
      other state).  Theorems: its invariant [sinv]; every value sent is
      well typed ([sresp_wf]); sends never block; what [main] prints.
    - [Variants.v]: the two programs related by erasure (a [Response]
      without [Duration]; printed lines without durations or comparison).
      A forward simulation ([match_world], [simulation_step]) maps every
      schedule of part_000 to one of main.go ([simple_refines_timing]);
      a fetch event of part_000 becomes the whole timing fetch up to its
      send, proved one action at a time over a [fetch_frame].  A backward
      simulation ([back_match], [back_step]) maps every step of main.go
      to at most one event of part_000, rebuilding the observations of a
      sent value with [obs_of].  Together: both programs print the same
      lines up to erasure ([variants_print_alike]).
    - [Render.v]: the console.  Each output value is rendered as the
      bytes of its [fmt.Printf]/[fmt.Println] (main.go 48-132, part_000
      51-83); [time.Duration.Seconds()] is computed in IEEE-754 doubles
      (Rocq's primitive floats, as Go's [float64]) and [%.3f] is the
      exact decimal rounding of the binary value that Go's [strconv]
      performs (ties to even).  Theorems: the whole stdout of every run
      in which [main] has returned, for main.go ([exit_console], against
      the specification [exit_stdout] written from the format strings)
      and for part_000 ([simple_exit_console], against [sexit_stdout]);
      whole-millisecond durations up to 5s print exactly
      ([whole_ms_print_exactly], checked by evaluation on each of the
      5001 values); the difference line depends on the two durations and
      not only on their difference ([difference_depends_on_operands]).

    ** Bounds

    The bound of 19 events is the initial value of a measure that every
    event decreases: each fetch has its call event and at most 5 actions
    (6 + 6), [main] at most 3 events, the aggregator at most 3, and the
    deadline fires once.  [schedule_length_bound] shows that every
    accepted schedule is no longer, so no interleaving runs forever; no
    fuel is needed since [run] recurses on the schedule.

    [whole_ms_print_exactly] covers durations of 0 to 5000 whole
    milliseconds.  Every fetch that reports runs under the 1s deadline
    of [ctx], so the durations the comparison prints are about a second
    at most; the range is five times that, and is checked value by
    value, which keeps the kernel's check of the file within seconds.

    ** Modelling choices

    - Time is abstract: the deadline, [time.After(100ms)] and the end of
      [time.Sleep(200ms)] are events that may fire in any order relative to
      the others, which over-approximates real time.  Durations are the
      observed [time.Since] values in int64 nanoseconds, non-negative.
    - [select] with several ready cases chooses any of them, as Go does.
    - Network I/O, JSON decoding and the clock are libraries the code only
      calls: a fetch receives the outcome of each call as an observation.
    - Printing is a list of output events carrying the printed values,
      durations in int64 nanoseconds; [Render.v] turns them into text, so
      the properties of the race are stated on values and the text is
      derived from them.
    - [float64(x)] of an int64 is [PrimFloat.of_uint63] of its absolute
      value, exact below 2^53, which covers both conversions inside
      [Seconds()] (seconds below 2^34, nanoseconds below 10^9).
    - Not modelled: URL escaping by [fmt.Sprintf] and [net/http], the
      HTTP and JSON libraries beyond the outcome of each call, and the
      clock beyond the durations it yields; these are libraries the code
      only calls. *)

From stdpp Require Export base gmap strings list finite.
From Stdlib Require Export ZArith Lia.

Declare Scope go_scope.
Delimit Scope go_scope with go.
Open Scope go_scope.

(** ** Go's [(value, err)] returns as an error monad *)

Inductive result (E A : Type) : Type :=
| Ok (a : A)
| Err (e : E).
Arguments Ok {E A} a.
Arguments Err {E A} e.

Definition result_bind {E A B} (r : result E A) (k : A -> result E B)
  : result E B :=
  match r with
  | Ok a => k a
  | Err e => Err e
  end.

Notation "'let?' x ':=' c 'in' k" := (result_bind c (fun x => k))
  (at level 10, x name, c at level 100, k at level 200) : go_scope.

Definition is_ok {E A} (r : result E A) : bool :=
  match r with Ok _ => true | Err _ => false end.

Lemma result_bind_ok {E A B} (a : A) (k : A -> result E B) :
  result_bind (Ok a) k = k a.
Proof. reflexivity. Qed.

Lemma result_bind_err {E A B} (e : E) (k : A -> result E B) :
  result_bind (Err e) k = Err e.
Proof. reflexivity. Qed.

Lemma result_bind_inv_ok {E A B} (r : result E A) (k : A -> result E B) b :
  result_bind r k = Ok b -> exists a, r = Ok a /\ k a = Ok b.
Proof. destruct r; simpl; [eauto | discriminate]. Qed.

(** ** Machine integers *)

Definition int64_max : Z := 2 ^ 63 - 1.

(** A [time.Since] reading: [time.Time.Sub] saturates into
    [[0, int64_max]] for a monotonic clock reading taken after the start. *)
Definition duration_ok (d : Z) : Prop := (0 <= d <= int64_max)%Z.

#[export] Instance duration_ok_dec d : Decision (duration_ok d).
Proof. unfold duration_ok. apply _. Defined.

(** ** Counting in lists *)

Definition count_if {A} (p : A -> bool) (l : list A) : nat :=
  length (List.filter p l).

Lemma count_if_app {A} (p : A -> bool) l1 l2 :
  count_if p (l1 ++ l2) = count_if p l1 + count_if p l2.
Proof. unfold count_if. by rewrite List.filter_app, length_app. Qed.

Lemma count_if_cons {A} (p : A -> bool) x l :
  count_if p (x :: l) = (if p x then 1 else 0) + count_if p l.
Proof. unfold count_if. simpl. by destruct (p x). Qed.

Lemma count_if_nil {A} (p : A -> bool) : count_if p [] = 0.
Proof. reflexivity. Qed.

Lemma count_if_le_length {A} (p : A -> bool) l : count_if p l <= length l.
Proof.
  induction l as [|x l IH]; [done|]. rewrite count_if_cons. simpl.
  destruct (p x); lia.
Qed.

(** ** Strings *)

Lemma string_app_cons (x : Ascii.ascii) (a b : string) : String x a +:+ b = String x (a +:+ b).
Proof. reflexivity. Qed.

Lemma string_app_nil_l (a : string) : "" +:+ a = a.
Proof. reflexivity. Qed.

Lemma string_app_nil_r (a : string) : a +:+ "" = a.
Proof. induction a as [|x a IH]; [done|]. by rewrite string_app_cons, IH. Qed.

Lemma string_app_assoc_r (a b c : string) : (a +:+ b) +:+ c = a +:+ (b +:+ c).
Proof. induction a as [|x a IH]; [done|]. by rewrite !string_app_cons, IH. Qed.

Lemma string_length_app (a b : string) :
  String.length (a +:+ b) = String.length a + String.length b.
Proof. induction a as [|x a IH]; [done|]. rewrite string_app_cons. simpl. lia. Qed.

(** Appending the same suffix is injective. *)
Lemma string_app_inj_r (a1 a2 t : string) : a1 +:+ t = a2 +:+ t -> a1 = a2.
Proof.
  revert a2. induction a1 as [|x a1 IH]; intros [|y a2] H; [done| | |].
  - apply (f_equal String.length) in H. rewrite !string_length_app in H. simpl in H; lia.
  - apply (f_equal String.length) in H. rewrite !string_length_app in H. simpl in H; lia.
  - rewrite !string_app_cons in H. injection H as -> H. f_equal. by apply IH.
Qed.

(** ** Exhaustive checks over a range of integers *)

(** A boolean test run on every integer of [[lo, lo + n)], for properties
    decided by evaluation. *)
Fixpoint Z_range (lo : Z) (n : nat) : list Z :=
  match n with
  | O => []
  | S n => lo :: Z_range (lo + 1)%Z n
  end.

Lemma in_Z_range lo n k : (lo <= k < lo + Z.of_nat n)%Z -> In k (Z_range lo n).
Proof.
  revert lo. induction n as [|n IH]; intros lo Hk; simpl; [lia|].
  destruct (Z.eq_dec lo k) as [->|Hne]; [by left|]. right. apply IH. lia.
Qed.

Lemma Z_range_forallb (f : Z -> bool) lo n k :
  forallb f (Z_range lo n) = true -> (lo <= k < lo + Z.of_nat n)%Z -> f k = true.
Proof. rewrite forallb_forall. intros Hall Hk. by apply Hall, in_Z_range. Qed.

(** ** Automation *)

Create Rewrite HintDb race_rw.
#[export] Hint Rewrite @result_bind_ok @result_bind_err : race_rw.
#[export] Hint Rewrite @count_if_app @count_if_cons @count_if_nil : race_rw.
Create Rewrite HintDb string_rw.
#[export] Hint Rewrite string_app_assoc_r string_app_nil_l string_app_nil_r : string_rw.

(** [invc H]: invert a hypothesis and substitute what it determines. *)
Ltac invc H := inversion H; subst; clear H.

(** [simpl_match]: turn [Some _ = Some _] and [Ok _ = Ok _] hypotheses
    into equations, and discard contradictory ones. *)
Ltac simpl_match :=
  repeat match goal with
  | H : Some _ = Some _ |- _ => injection H; clear H; intros; subst
  | H : Ok _ = Ok _ |- _ => injection H; clear H; intros; subst
  | H : Err _ = Err _ |- _ => injection H; clear H; intros; subst
  | H : None = Some _ |- _ => discriminate H
  | H : Some _ = None |- _ => discriminate H
  | H : Ok _ = Err _ |- _ => discriminate H
  | H : Err _ = Ok _ |- _ => discriminate H
  end.

(** [list_member]: prove that a value is an element of a concrete list. *)
Ltac list_member :=
  repeat first [apply list_elem_of_here | apply list_elem_of_further].

(** [not_list_member H]: refute [H : x ∈ l] for a concrete list [l] whose
    elements are all distinct from [x]. *)
Ltac not_list_member H :=
  repeat (apply elem_of_cons in H as [H | H]; [discriminate H|]);
  by apply not_elem_of_nil in H.
