(* ===== verification/Types.v ===== *)
(** * The data of the program

    The two JSON schemas [BrasilAPICEP] and [ViaCEP] (main.go 14-36), the
    tagged union behind [Response.Data interface{}], Go [error] values,
    the [Response] struct sent on the channel (main.go 39-44), and the
    five address fields that [main]'s type switch prints for each schema
    (main.go 84-91).  The schemas live in Modules of their own because
    both have a field [Cep]. *)

From S2P Require Import Prelude.

Module Brasil.
(** [type BrasilAPICEP struct] *)
Record BrasilAPICEP : Type := mkBrasilAPICEP {
  Cep : string;
  State : string;
  City : string;
  Neighborhood : string;
  Street : string;
  Service : string
}.
End Brasil.

Module Via.
(** [type ViaCEP struct] *)
Record ViaCEP : Type := mkViaCEP {
  Cep : string;
  Logradouro : string;
  Complemento : string;
  Bairro : string;
  Localidade : string;
  Uf : string;
  Ibge : string;
  Gia : string;
  Ddd : string;
  Siafi : string
}.
End Via.

Import Brasil Via.

(** The dynamic value stored in [Data interface{}]: [nil] in an error
    response, otherwise one of the two decoded structs. *)
Inductive AnyData : Type :=
| DataNil
| DataBrasil (d : BrasilAPICEP)
| DataVia (d : ViaCEP).

(** The library call whose [err] a fetch function passes on unchanged. *)
Inductive GoCall : Type :=
| CallNewRequest   (* http.NewRequestWithContext *)
| CallDo           (* client.Do *)
| CallReadAll      (* io.ReadAll *)
| CallUnmarshal.   (* json.Unmarshal *)

(** A Go [error]: either one returned by a library call (its message),
    or the one the code builds itself with
    [fmt.Errorf("status code: %d", resp.StatusCode)]. *)
Inductive GoError : Type :=
| LibError (call : GoCall) (msg : string)
| StatusError (code : Z).

(** [type Response struct]; [Error = None] is Go's [nil]. *)
Record Response : Type := mkResponse {
  Data : AnyData;
  APIName : string;
  Error : option GoError;
  Duration : Z
}.

(** The composite literal [Response{APIName: n, Error: err, Duration: d}]:
    [Data] keeps its zero value [nil]. *)
Definition resp_err (apiName : string) (err : GoError) (d : Z) : Response :=
  {| Data := DataNil; APIName := apiName; Error := Some err; Duration := d |}.

(** [Response{APIName: n, Data: data, Duration: d}]: [Error] stays [nil]. *)
Definition resp_ok (apiName : string) (data : AnyData) (d : Z) : Response :=
  {| Data := data; APIName := apiName; Error := None; Duration := d |}.

(** ** The backends *)

(** The two fetch goroutines [main] starts, in the order of the [go]
    statements (main.go 71-72). *)
Inductive Backend : Type :=
| BrasilAPI
| ViaCEPAPI.

#[export] Instance Backend_eq_dec : EqDecision Backend.
Proof. solve_decision. Defined.

#[export] Instance Backend_finite : Finite Backend.
Proof.
  refine {| enum := [BrasilAPI; ViaCEPAPI] |}.
  - apply NoDup_ListNoDup. repeat constructor; simpl; intuition discriminate.
  - intros []; simpl; [left | right; left].
Defined.

(** [apiName := "BrasilAPI"] (main.go 149), [apiName := "ViaCEP"] (196). *)
Definition api_name (b : Backend) : string :=
  match b with
  | BrasilAPI => "BrasilAPI"
  | ViaCEPAPI => "ViaCEP"
  end.

(** ** The address the type switch prints *)

(** The five values printed under [CEP], [Estado], [Cidade], [Bairro] and
    [Rua]. *)
Record Address : Type := mkAddress {
  addr_cep : string;
  addr_estado : string;
  addr_cidade : string;
  addr_bairro : string;
  addr_rua : string
}.

(** [switch data := result.Data.(type)]: each case picks the fields of
    its schema; the switch has no [default], so [nil] prints nothing. *)
Definition address_of (d : AnyData) : option Address :=
  match d with
  | DataBrasil b =>
      Some (mkAddress (Brasil.Cep b) (State b) (City b) (Neighborhood b) (Street b))
  | DataVia v =>
      Some (mkAddress (Via.Cep v) (Uf v) (Localidade v) (Bairro v) (Logradouro v))
  | DataNil => None
  end.

(** ** Well-typed responses *)

(** The dynamic type held in [Data] is the struct the API named
    [api] decodes into. *)
Definition data_of_api (api : string) (d : AnyData) : Prop :=
  match d with
  | DataNil => False
  | DataBrasil _ => api = api_name BrasilAPI
  | DataVia _ => api = api_name ViaCEPAPI
  end.

(** A [Response] as the fetch functions build it: [Data] is [nil]
    exactly when [Error] is not, and otherwise holds the struct of the
    API it names. *)
Definition resp_wf (r : Response) : Prop :=
  match Error r with
  | Some _ => Data r = DataNil
  | None => data_of_api (APIName r) (Data r)
  end.

(** The backend whose [apiName] is [k], if any. *)
Definition backend_of_name (k : string) : option Backend :=
  if decide (k = "BrasilAPI") then Some BrasilAPI
  else if decide (k = "ViaCEP") then Some ViaCEPAPI
  else None.

Lemma backend_of_name_api b : backend_of_name (api_name b) = Some b.
Proof. by destruct b. Qed.

Lemma backend_of_name_Some k b : backend_of_name k = Some b -> k = api_name b.
Proof. unfold backend_of_name. repeat case_decide; intros; by simplify_eq. Qed.

Lemma api_name_inj b1 b2 : api_name b1 = api_name b2 -> b1 = b2.
Proof. by destruct b1, b2. Qed.

Lemma api_name_nonempty b : api_name b <> "".
Proof. by destruct b. Qed.

(** A well-typed success carries an address for the type switch of
    [main]. *)
Lemma resp_wf_address r :
  resp_wf r -> Error r = None -> exists a, address_of (Data r) = Some a.
Proof.
  unfold resp_wf. intros Hwf He. rewrite He in Hwf.
  destruct (Data r); [done | eexists; reflexivity ..].
Qed.
