(* ===== verification/Fetch.v ===== *)
(** * The Lookup Task: [fetchBrasilAPI] and [fetchViaCEP]

    Each fetch goroutine (main.go 146-191 and 193-238) first performs its
    external calls, then a straight-line sequence of actions on the state
    it shares with the other goroutines.  The external calls are modelled
    by an observation [Obs T]: what [http.NewRequestWithContext] and
    [client.Do] return for the URL the code builds, what [io.ReadAll]
    returns, what [json.Unmarshal] returns for the body read, and the
    [time.Since(startTime)] reading taken on the path followed.
    [fetch_chain] is the chain of [if err != nil { ...; return }] checks
    in the result monad; [task_script] is what the goroutine then does to
    shared state, as a list of [Action]s that [Race.v] interleaves with
    the other goroutines. *)

From S2P Require Import Prelude Types.
Import Brasil Via.

(** ** Shared-state actions *)

Inductive Action : Type :=
| ALock                        (* mu.Lock() *)
| AStore (k : string) (d : Z)  (* results[apiName] = duration *)
| AUnlock                      (* mu.Unlock() *)
| ASend (r : Response)         (* resultChan <- r *)
| ADone.                       (* the deferred wg.Done() *)

(** ** Observations of the external calls *)

Record Obs (T : Type) : Type := mkObs {
  obs_new_request : string -> result string unit;
  obs_do : string -> result string Z;
  obs_read_all : result string (list Byte.byte);
  obs_unmarshal : list Byte.byte -> result string T;
  obs_elapsed : Z
}.
Arguments mkObs {T} _ _ _ _ _.
Arguments obs_new_request {T} _ _.
Arguments obs_do {T} _ _.
Arguments obs_read_all {T} _.
Arguments obs_unmarshal {T} _ _.
Arguments obs_elapsed {T} _.

(** [http.StatusOK] *)
Definition StatusOK : Z := 200.

(** A library [err] passed on unchanged; the [GoCall] records which
    call returned it. *)
Definition lib_call {A} (c : GoCall) (r : result string A) : result GoError A :=
  match r with
  | Ok a => Ok a
  | Err msg => Err (LibError c msg)
  end.

(** The URLs (main.go 151 and 198): the CEP is inserted verbatim. *)
Definition brasil_url (cep : string) : string :=
  "https://brasilapi.com.br/api/cep/v1/" +:+ cep.

Definition via_url (cep : string) : string :=
  "http://viacep.com.br/ws/" +:+ cep +:+ "/json/".

(** The checks of main.go 152-181 (and 199-228), in order: request
    construction, transport, status, body read, decode. *)
Definition fetch_chain {T} (url : string) (o : Obs T) : result GoError T :=
  let? _ := lib_call CallNewRequest (obs_new_request o url) in
  let? status := lib_call CallDo (obs_do o url) in
  let? _ := (if Z.eqb status StatusOK then Ok tt else Err (StatusError status)) in
  let? body := lib_call CallReadAll (obs_read_all o) in
  lib_call CallUnmarshal (obs_unmarshal o body).

(** The errors the chain of checks returns: the code builds a
    [StatusError] only for a status other than 200. *)
Definition chain_error (e : GoError) : Prop :=
  match e with
  | StatusError code => code <> StatusOK
  | LibError _ _ => True
  end.

(** What the goroutine does after its calls: on an error, send
    [Response{APIName, Error, Duration}]; on success, store the duration
    under the lock, then send [Response{APIName, Data, Duration}]; in
    both cases the deferred [wg.Done()] runs last. *)
Definition task_script {T} (apiName : string) (wrap : T -> AnyData)
    (r : result GoError T) (d : Z) : list Action :=
  match r with
  | Err e => [ASend (resp_err apiName e d); ADone]
  | Ok data =>
      [ALock; AStore apiName d; AUnlock; ASend (resp_ok apiName (wrap data) d); ADone]
  end.

(** [fetchBrasilAPI(ctx, cep, resultChan, &wg, &timingMutex, timingResults)] *)
Definition fetchBrasilAPI (cep : string) (o : Obs BrasilAPICEP) : list Action :=
  task_script (api_name BrasilAPI) DataBrasil (fetch_chain (brasil_url cep) o)
    (obs_elapsed o).

(** [fetchViaCEP(ctx, cep, resultChan, &wg, &timingMutex, timingResults)] *)
Definition fetchViaCEP (cep : string) (o : Obs ViaCEP) : list Action :=
  task_script (api_name ViaCEPAPI) DataVia (fetch_chain (via_url cep) o)
    (obs_elapsed o).

(** The schema each backend decodes into. *)
Definition schema (b : Backend) : Type :=
  match b with
  | BrasilAPI => BrasilAPICEP
  | ViaCEPAPI => ViaCEP
  end.

(** The goroutine [main] starts for backend [b]. *)
Definition fetch (b : Backend) (cep : string) : Obs (schema b) -> list Action :=
  match b return Obs (schema b) -> list Action with
  | BrasilAPI => fetchBrasilAPI cep
  | ViaCEPAPI => fetchViaCEP cep
  end.

(** ** The shape of a script *)

(** Every script is one of the two straight-line paths of [task_script]
    for its API name and duration. *)
Inductive script_shape (api : string) (d : Z) : list Action -> Prop :=
| shape_err e :
    chain_error e ->
    script_shape api d [ASend (resp_err api e d); ADone]
| shape_ok data :
    data_of_api api data ->
    script_shape api d [ALock; AStore api d; AUnlock; ASend (resp_ok api data d); ADone].

(** The lock discipline, executable: [held] says whether the goroutine
    holds [mu]; a store needs the lock, a send or [wg.Done()] must not be
    done while holding it, and the script ends with the lock released. *)
Fixpoint lock_ok (held : bool) (acts : list Action) : bool :=
  match acts with
  | [] => negb held
  | ALock :: rest => negb held && lock_ok true rest
  | AUnlock :: rest => held && lock_ok false rest
  | AStore _ _ :: rest => held && lock_ok held rest
  | ASend _ :: rest => negb held && lock_ok held rest
  | ADone :: rest => negb held && lock_ok held rest
  end.

Definition is_send (a : Action) : bool :=
  match a with ASend _ => true | _ => false end.

Definition is_done (a : Action) : bool :=
  match a with ADone => true | _ => false end.

(** The responses a script sends, in order. *)
Fixpoint sends (acts : list Action) : list Response :=
  match acts with
  | [] => []
  | ASend r :: rest => r :: sends rest
  | _ :: rest => sends rest
  end.

(** The stores a script performs, in order. *)
Fixpoint stores (acts : list Action) : list (string * Z) :=
  match acts with
  | [] => []
  | AStore k d :: rest => (k, d) :: stores rest
  | _ :: rest => stores rest
  end.

(** ** The chain of checks *)

Lemma lib_call_ok {A} c (r : result string A) a :
  lib_call c r = Ok a <-> r = Ok a.
Proof. destruct r; simpl; split; intros; simpl_match; done. Qed.

Lemma lib_call_err {A} c (r : result string A) e :
  lib_call c r = Err e <-> exists msg, r = Err msg /\ e = LibError c msg.
Proof.
  destruct r; simpl; split; intros; simpl_match; eauto.
  - by destruct H as (? & ? & ?).
  - destruct H as (? & ? & ->). by simpl_match.
Qed.

Lemma fetch_chain_error {T} url (o : Obs T) e :
  fetch_chain url o = Err e -> chain_error e.
Proof.
  unfold fetch_chain.
  destruct (obs_new_request o url) as [[]|m1]; simpl; [|by intros [= <-]].
  destruct (obs_do o url) as [code|m2]; simpl; [|by intros [= <-]].
  destruct (Z.eqb_spec code StatusOK) as [->|Hne]; simpl; [|by intros [= <-]].
  destruct (obs_read_all o) as [body|m3]; simpl; [|by intros [= <-]].
  destruct (obs_unmarshal o body); simpl; [done | by intros [= <-]].
Qed.

(** The outcomes of the chain, one constructor per [return] of the Go
    code: each error is the one of the first check that fails. *)
Inductive chain_outcome {T} (url : string) (o : Obs T) : result GoError T -> Prop :=
| co_new_request msg :
    obs_new_request o url = Err msg ->
    chain_outcome url o (Err (LibError CallNewRequest msg))
| co_do msg :
    obs_new_request o url = Ok tt -> obs_do o url = Err msg ->
    chain_outcome url o (Err (LibError CallDo msg))
| co_status code :
    obs_new_request o url = Ok tt -> obs_do o url = Ok code -> code <> StatusOK ->
    chain_outcome url o (Err (StatusError code))
| co_read_all msg :
    obs_new_request o url = Ok tt -> obs_do o url = Ok StatusOK ->
    obs_read_all o = Err msg ->
    chain_outcome url o (Err (LibError CallReadAll msg))
| co_unmarshal body msg :
    obs_new_request o url = Ok tt -> obs_do o url = Ok StatusOK ->
    obs_read_all o = Ok body -> obs_unmarshal o body = Err msg ->
    chain_outcome url o (Err (LibError CallUnmarshal msg))
| co_ok body data :
    obs_new_request o url = Ok tt -> obs_do o url = Ok StatusOK ->
    obs_read_all o = Ok body -> obs_unmarshal o body = Ok data ->
    chain_outcome url o (Ok data).

(** C16. The error taxonomy of a fetch: the chain returns the decoded
    value when every call succeeds with status 200, and otherwise the
    error of the first failing check, in the order request construction,
    transport, status code (as [StatusError code]), body read, decode. *)
Theorem fetch_chain_spec {T} url (o : Obs T) :
  chain_outcome url o (fetch_chain url o).
Proof.
  unfold fetch_chain.
  destruct (obs_new_request o url) as [[]|m1] eqn:E1; simpl; [|by constructor].
  destruct (obs_do o url) as [code|m2] eqn:E2; simpl; [|by constructor].
  destruct (Z.eqb_spec code StatusOK) as [->|Hne]; simpl; [|by constructor].
  destruct (obs_read_all o) as [body|m3] eqn:E3; simpl; [|by constructor].
  destruct (obs_unmarshal o body) eqn:E4; simpl; by econstructor.
Qed.

(** The outcome relation is functional: the observations decide it. *)
Lemma chain_outcome_fun {T} url (o : Obs T) r1 r2 :
  chain_outcome url o r1 -> chain_outcome url o r2 -> r1 = r2.
Proof. intros H1 H2; destruct H1; destruct H2; congruence. Qed.

Lemma fetch_chain_outcome {T} url (o : Obs T) r :
  chain_outcome url o r -> fetch_chain url o = r.
Proof. intros H. eapply chain_outcome_fun; [apply fetch_chain_spec | exact H]. Qed.

(** ** The two fetch functions are one generic fetch *)

Definition backend_url (b : Backend) (cep : string) : string :=
  match b with
  | BrasilAPI => brasil_url cep
  | ViaCEPAPI => via_url cep
  end.

Definition wrap (b : Backend) : schema b -> AnyData :=
  match b return schema b -> AnyData with
  | BrasilAPI => DataBrasil
  | ViaCEPAPI => DataVia
  end.

Lemma fetch_unfold b cep (o : Obs (schema b)) :
  fetch b cep o =
  task_script (api_name b) (wrap b) (fetch_chain (backend_url b cep) o) (obs_elapsed o).
Proof. by destruct b. Qed.

Lemma task_script_shape {T} apiName (wr : T -> AnyData) r d :
  (forall x, data_of_api apiName (wr x)) -> (forall e, r = Err e -> chain_error e) ->
  script_shape apiName d (task_script apiName wr r d).
Proof. intros Hwr He. destruct r; constructor; auto. Qed.

Lemma wrap_data_of_api b (x : schema b) : data_of_api (api_name b) (wrap b x).
Proof. by destruct b. Qed.

Lemma fetch_shape b cep (o : Obs (schema b)) :
  script_shape (api_name b) (obs_elapsed o) (fetch b cep o).
Proof.
  rewrite fetch_unfold. apply task_script_shape; [apply wrap_data_of_api|].
  apply fetch_chain_error.
Qed.

(** What every script of either shape does. *)
Lemma script_shape_facts api d acts :
  script_shape api d acts ->
  lock_ok false acts = true /\
  count_if is_done acts = 1 /\ last acts = Some ADone /\
  exists r, sends acts = [r] /\ APIName r = api /\ Duration r = d /\
    stores acts = (if Error r is Some _ then [] else [(api, d)]).
Proof. intros []; (split; [done|]); (split; [done|]); (split; [done|]); eauto 10. Qed.

(** C15. The contract of a fetch goroutine: whatever its calls return, it
    sends exactly one [Response], carrying its own API name and the
    measured duration; it stores a duration in the timing map exactly when
    that response carries no error, and then under its own name with the
    same duration; it never sends or signals the WaitGroup while holding
    the mutex and releases it; and [wg.Done()] runs once, last. *)
Theorem fetch_contract b cep (o : Obs (schema b)) :
  let acts := fetch b cep o in
  lock_ok false acts = true /\
  count_if is_done acts = 1 /\ last acts = Some ADone /\
  exists r, sends acts = [r] /\ APIName r = api_name b /\ Duration r = obs_elapsed o /\
    stores acts = (if Error r is Some _ then [] else [(api_name b, obs_elapsed o)]).
Proof. apply script_shape_facts, fetch_shape. Qed.

(** C17. The one response a fetch sends is decided by its chain of
    checks, field by field: it names the fetch's API and carries its
    measured duration; when the chain succeeds its [Error] is [nil] and
    its [Data] is the decoded struct of that API; when a check fails its
    [Error] is that check's error and its [Data] is [nil]. *)
Theorem fetch_sends_result b cep (o : Obs (schema b)) :
  exists r, sends (fetch b cep o) = [r] /\
    APIName r = api_name b /\ Duration r = obs_elapsed o /\
    match fetch_chain (backend_url b cep) o with
    | Ok data => Error r = None /\ Data r = wrap b data
    | Err e => Error r = Some e /\ Data r = DataNil
    end.
Proof.
  rewrite fetch_unfold.
  destruct (fetch_chain _ _); (eexists; split; [reflexivity|]); done.
Qed.

(** ** Summaries of action lists *)

Lemma sends_app l1 l2 : sends (l1 ++ l2) = sends l1 ++ sends l2.
Proof. induction l1 as [|[] l1 IH]; simpl; by rewrite ?IH. Qed.

Lemma stores_app l1 l2 : stores (l1 ++ l2) = stores l1 ++ stores l2.
Proof. induction l1 as [|[] l1 IH]; simpl; by rewrite ?IH. Qed.

(** A script sends its one response under its API name, and stores its
    one duration under that name. *)
Lemma script_shape_sends api d s : script_shape api d s ->
  exists r, sends s = [r] /\ APIName r = api.
Proof. intros []; eauto. Qed.

Lemma script_shape_stores api d s : script_shape api d s ->
  stores s = [] \/ stores s = [(api, d)].
Proof. intros []; auto. Qed.

Lemma script_shape_dones api d s : script_shape api d s -> count_if is_done s = 1.
Proof. by intros []. Qed.

Lemma script_shape_last api d s : script_shape api d s -> last s = Some ADone.
Proof. by intros []. Qed.

(** Every response a script sends is well typed. *)
Lemma script_shape_wf api d s : script_shape api d s -> Forall resp_wf (sends s).
Proof. intros [e He | data Hd]; repeat constructor; done. Qed.
