(* ===== verification/Timing.v ===== *)
(** * The timing comparison of the detached goroutine

    main.go 106-133: when the timing map holds more than one entry, a
    [for api, duration := range timingResults] loop finds the fastest
    and slowest entries (strict comparisons, with [""] meaning "none yet"),
    and the difference is printed; otherwise "unavailable" is printed.
    Go does not specify the iteration order of a map, so the loop is a
    fold over an [iteration_order]: any permutation of the bindings.  The
    difference [slowestTime.Seconds()-fastestTime.Seconds()] is computed
    only when printing, in float64, from the two extremes: it is rendered
    in [Render.v] and not stored here. *)

From S2P Require Import Prelude.

Record Extremes : Type := mkExtremes {
  fastest : string;
  fastestTime : Z;
  slowest : string;
  slowestTime : Z
}.

(** [var fastest, slowest string; var fastestTime, slowestTime time.Duration] *)
Definition extremes_init : Extremes := mkExtremes "" 0 "" 0.

(** One iteration of the loop body (main.go 113-120). *)
Definition range_body (acc : Extremes) (kv : string * Z) : Extremes :=
  let '(api, duration) := kv in
  let acc :=
    if bool_decide (fastest acc = "") || (duration <? fastestTime acc)%Z
    then mkExtremes api duration (slowest acc) (slowestTime acc)
    else acc in
  if bool_decide (slowest acc = "") || (slowestTime acc <? duration)%Z
  then mkExtremes (fastest acc) (fastestTime acc) api duration
  else acc.

Definition range_extremes (order : list (string * Z)) : Extremes :=
  fold_left range_body order extremes_init.

(** An order in which [range] may visit the map. *)
Definition iteration_order (m : gmap string Z) (order : list (string * Z)) : Prop :=
  order ≡ₚ map_to_list m.

#[export] Instance iteration_order_dec m order : Decision (iteration_order m order).
Proof. unfold iteration_order. apply _. Defined.

Inductive Comparison : Type :=
| Unavailable
  (* "Não foi possível obter resposta de ambas as APIs para comparação." *)
| Compared (e : Extremes) (listing : list (string * Z)).
  (* the fastest and slowest entries, then every entry in a second range order *)

(** The body of the [if len(timingResults) > 1] (main.go 107-133), given
    the iteration orders of its two [range] loops. *)
Definition compare_timings (m : gmap string Z) (order1 order2 : list (string * Z))
  : Comparison :=
  if bool_decide (1 < size m)
  then Compared (range_extremes order1) order2
  else Unavailable.

(** ** The loop invariant *)

(** After visiting [seen], the accumulator is the initial one when
    nothing was visited, and otherwise names a visited binding of least
    and one of greatest duration. *)
Definition extremes_of (seen : list (string * Z)) (e : Extremes) : Prop :=
  (seen = [] /\ e = extremes_init) \/
  (fastest e <> "" /\ slowest e <> "" /\
   (fastest e, fastestTime e) ∈ seen /\ (slowest e, slowestTime e) ∈ seen /\
   Forall (fun kv => fastestTime e <= kv.2 <= slowestTime e)%Z seen).

Lemma range_body_extremes seen e k d :
  k <> "" -> extremes_of seen e -> extremes_of (seen ++ [(k, d)]) (range_body e (k, d)).
Proof.
  intros Hk [[-> ->] | (Hf & Hs & Hfin & Hsin & Hall)]; right; simpl.
  - repeat split; simpl; try done; try set_solver. repeat constructor; simpl; lia.
  - rewrite Forall_app, Forall_singleton, (bool_decide_eq_false_2 (fastest e = "")) by done.
    destruct (Z.ltb_spec d (fastestTime e)); simpl;
      rewrite (bool_decide_eq_false_2 (slowest e = "")) by done; simpl;
      destruct (Z.ltb_spec (slowestTime e) d); simpl;
      repeat split; try done; try set_solver;
      try (eapply Forall_impl; [exact Hall|]; simpl; lia); lia.
Qed.

Lemma range_extremes_invariant seen rest e :
  Forall (fun kv => kv.1 <> "") rest -> extremes_of seen e ->
  extremes_of (seen ++ rest) (fold_left range_body rest e).
Proof.
  revert seen e. induction rest as [|[k d] rest IH]; intros seen e Hk He; simpl.
  - by rewrite app_nil_r.
  - inversion Hk; subst. rewrite (cons_middle (k, d) seen rest), app_assoc.
    apply IH; [done|]. by apply range_body_extremes.
Qed.

(** ** Correctness of the loop *)

(** C18. For any non-empty iteration order whose keys are non-empty
    strings, the loop ends with a visited binding of least duration as
    [fastest]/[fastestTime] and one of greatest duration as
    [slowest]/[slowestTime]: it computes the minimum and the maximum. *)
Theorem range_extremes_correct order :
  order <> [] -> Forall (fun kv => kv.1 <> "") order ->
  let e := range_extremes order in
  (fastest e, fastestTime e) ∈ order /\ (slowest e, slowestTime e) ∈ order /\
  Forall (fun kv => fastestTime e <= kv.2 <= slowestTime e)%Z order.
Proof.
  intros Hne Hk.
  destruct (range_extremes_invariant [] order extremes_init Hk) as
    [[? _] | (_ & _ & ? & ? & ?)]; [by left | done | by split_and!].
Qed.

(** The same facts, stated on the map the loop ranges over. *)
Definition extremes_of_map (m : gmap string Z) (e : Extremes) : Prop :=
  m !! fastest e = Some (fastestTime e) /\ m !! slowest e = Some (slowestTime e) /\
  map_Forall (fun _ d => fastestTime e <= d <= slowestTime e)%Z m.

Lemma iteration_order_nonempty m order :
  iteration_order m order -> m <> ∅ -> order <> [].
Proof.
  unfold iteration_order. intros Hp Hm ->. apply Hm, map_to_list_empty_iff.
  by apply Permutation_nil in Hp.
Qed.

Lemma range_extremes_map m order :
  map_Forall (fun k _ => k <> "") m -> iteration_order m order -> m <> ∅ ->
  extremes_of_map m (range_extremes order).
Proof.
  intros Hk Hp Hm.
  assert (Hin : forall kv, kv ∈ order <-> m !! kv.1 = Some kv.2).
  { intros [k d]. unfold iteration_order in Hp. rewrite Hp. apply elem_of_map_to_list. }
  assert (Hk' : Forall (fun kv => kv.1 <> "") order).
  { apply Forall_forall. intros kv Hkv%Hin. by apply (Hk kv.1 kv.2). }
  destruct (range_extremes_invariant [] order extremes_init Hk') as
    [[Hnil _] | (_ & _ & Hf & Hs & Hall)]; [by left|..].
  - by apply iteration_order_nonempty in Hp.
  - apply Hin in Hf, Hs. split_and!; [done | done |].
    intros k d Hkd. rewrite Forall_forall in Hall. by apply (Hall (k, d)), Hin.
Qed.

Lemma map_size_gt_nonempty (m : gmap string Z) : 1 < size m -> m <> ∅.
Proof. intros Hs ->. rewrite map_size_empty in Hs. lia. Qed.

Lemma compare_timings_compared m o1 o2 :
  1 < size m ->
  compare_timings m o1 o2 =
  Compared (range_extremes o1) o2.
Proof. intros Hs. unfold compare_timings. by rewrite bool_decide_eq_true_2. Qed.

(** C19. When the map has more than one entry with non-empty keys, the
    comparison is printed for every pair of iteration orders: its
    fastest and slowest entries are bindings of the map with the least
    and the greatest duration. *)
Theorem compare_timings_correct m o1 o2 :
  map_Forall (fun k _ => k <> "") m -> iteration_order m o1 -> 1 < size m ->
  exists e, compare_timings m o1 o2 = Compared e o2 /\
            extremes_of_map m e.
Proof.
  intros Hk Hp Hs. exists (range_extremes o1). split; [by apply compare_timings_compared|].
  apply range_extremes_map; [done | done |]. by apply map_size_gt_nonempty.
Qed.

(** Two accumulators that both describe the map have the same times, and
    the same names when no two entries share a duration. *)
Lemma extremes_of_map_unique m e1 e2 :
  extremes_of_map m e1 -> extremes_of_map m e2 ->
  fastestTime e1 = fastestTime e2 /\ slowestTime e1 = slowestTime e2 /\
  ((forall k1 k2 d, m !! k1 = Some d -> m !! k2 = Some d -> k1 = k2) -> e1 = e2).
Proof.
  intros (Hf1 & Hs1 & Hall1) (Hf2 & Hs2 & Hall2).
  pose proof (Hall1 _ _ Hf2). pose proof (Hall2 _ _ Hf1).
  pose proof (Hall1 _ _ Hs2). pose proof (Hall2 _ _ Hs1). cbv beta in *.
  assert (Ef : fastestTime e1 = fastestTime e2) by lia.
  assert (Es : slowestTime e1 = slowestTime e2) by lia.
  split_and!; [done | done |]. intros Hinj.
  rewrite Ef in Hf1. rewrite Es in Hs1.
  assert (fastest e1 = fastest e2) by (eapply Hinj; [exact Hf1 | exact Hf2]).
  assert (slowest e1 = slowest e2) by (eapply Hinj; [exact Hs1 | exact Hs2]).
  destruct e1, e2; simpl in *; congruence.
Qed.

(** C20. The printed times do not depend on the order in which Go's
    [range] visits the map, and neither do the printed names when the
    durations are pairwise distinct. *)
Theorem range_extremes_order_independent m o1 o2 :
  map_Forall (fun k _ => k <> "") m -> m <> ∅ ->
  iteration_order m o1 -> iteration_order m o2 ->
  fastestTime (range_extremes o1) = fastestTime (range_extremes o2) /\
  slowestTime (range_extremes o1) = slowestTime (range_extremes o2) /\
  ((forall k1 k2 d, m !! k1 = Some d -> m !! k2 = Some d -> k1 = k2) ->
   range_extremes o1 = range_extremes o2).
Proof. intros Hk Hm H1 H2. apply extremes_of_map_unique; by apply range_extremes_map. Qed.

Lemma lookup_two_Some (a b : string) (d1 d2 d : Z) k :
  (<[a:=d1]> {[b:=d2]} : gmap string Z) !! k = Some d ->
  (k = a /\ d = d1) \/ (k = b /\ k <> a /\ d = d2).
Proof.
  intros [[<- <-] | [Hne [<- <-]%lookup_singleton_Some]]%lookup_insert_Some;
    [left | right]; auto.
Qed.

(** C21. With two entries of durations [d1 < d2] (both fetches
    succeeded), the comparison names the first as fastest and the second
    as slowest, with their durations, whatever the iteration order of
    the first [range] (the second only orders the listing). *)
Theorem compare_two_timings a b d1 d2 o1 o2 :
  a <> "" -> b <> "" -> a <> b -> (d1 < d2)%Z ->
  iteration_order (<[a:=d1]> {[b:=d2]}) o1 ->
  compare_timings (<[a:=d1]> {[b:=d2]}) o1 o2 =
  Compared (mkExtremes a d1 b d2) o2.
Proof.
  intros Ha Hb Hab Hlt Hp. set (m := <[a:=d1]> {[b:=d2]} : gmap string Z).
  assert (Hm : extremes_of_map m (mkExtremes a d1 b d2)).
  { unfold m. split_and!; simpl.
    - apply lookup_insert_eq.
    - rewrite lookup_insert_ne by done. apply lookup_singleton_eq.
    - intros k d [[-> ->] | (-> & _ & ->)]%lookup_two_Some; lia. }
  assert (Hs : 1 < size m).
  { unfold m. rewrite map_size_insert_None by (by rewrite lookup_singleton_ne).
    rewrite map_size_singleton. lia. }
  rewrite (compare_timings_compared m o1 o2 Hs).
  assert (He : extremes_of_map m (range_extremes o1)).
  { apply range_extremes_map; [|done | by apply map_size_gt_nonempty].
    intros k d [[-> _] | (-> & _ & _)]%lookup_two_Some; done. }
  destruct (extremes_of_map_unique m _ (mkExtremes a d1 b d2) He Hm) as (_ & _ & Heq).
  rewrite Heq; [done|].
  intros k1 k2 d [[-> ->] | (-> & ? & ->)]%lookup_two_Some
    [[-> ?] | (-> & ? & ?)]%lookup_two_Some; subst; done || lia.
Qed.

(** ** Maps keyed by the two API names *)

(** The map that holds [ob] under ["BrasilAPI"] and [ov] under
    ["ViaCEP"], and nothing else. *)
Definition two_entries (ob ov : option Z) : gmap string Z :=
  match ob with
  | Some db => <["BrasilAPI":=db]>
  | None => id
  end (match ov with Some dv => {["ViaCEP":=dv]} | None => ∅ end).

Lemma two_entries_eq (tm : gmap string Z) :
  (forall k, k <> "BrasilAPI" -> k <> "ViaCEP" -> tm !! k = None) ->
  tm = two_entries (tm !! "BrasilAPI") (tm !! "ViaCEP").
Proof.
  intros Hother. apply map_eq. intros k. unfold two_entries.
  destruct (decide (k = "BrasilAPI")) as [->|Hb].
  - destruct (tm !! "BrasilAPI"); simpl.
    + by rewrite lookup_insert_eq.
    + destruct (tm !! "ViaCEP"); [by rewrite lookup_singleton_ne | done].
  - destruct (decide (k = "ViaCEP")) as [->|Hv].
    + destruct (tm !! "BrasilAPI"); simpl; [rewrite lookup_insert_ne by done|];
        (destruct (tm !! "ViaCEP"); [by rewrite lookup_singleton_eq | done]).
    + rewrite Hother by done. destruct (tm !! "BrasilAPI"); simpl;
        [rewrite lookup_insert_ne by done|];
        (destruct (tm !! "ViaCEP"); [by rewrite lookup_singleton_ne | done]).
Qed.

Lemma extremes_two db dv e :
  extremes_of_map (<["BrasilAPI":=db]> {["ViaCEP":=dv]}) e ->
  fastestTime e = Z.min db dv /\ slowestTime e = Z.max db dv.
Proof.
  intros (Hf & Hs & Hall).
  pose proof (Hall "BrasilAPI" db (lookup_insert_eq _ _ _)) as H1.
  pose proof (Hall "ViaCEP" dv) as H2.
  rewrite lookup_insert_ne, lookup_singleton_eq in H2 by done.
  specialize (H2 eq_refl). cbv beta in H1, H2.
  apply lookup_two_Some in Hf as [[_ Hf] | (_ & _ & Hf)];
    apply lookup_two_Some in Hs as [[_ Hs] | (_ & _ & Hs)]; lia.
Qed.

(** Ranging over the map of both entries visits both bindings. *)
Lemma two_entries_to_list db dv :
  map_to_list (two_entries (Some db) (Some dv)) ≡ₚ [("BrasilAPI", db); ("ViaCEP", dv)].
Proof.
  simpl. rewrite map_to_list_insert by (by rewrite lookup_singleton_ne).
  by rewrite map_to_list_singleton.
Qed.

(** The comparison over the two backends' entries: the minimum and the
    maximum of both durations when both are present, "unavailable"
    when one is missing. *)
Lemma compare_two_entries ob ov o1 o2 :
  iteration_order (two_entries ob ov) o1 ->
  match ob, ov with
  | Some db, Some dv =>
      exists e, compare_timings (two_entries ob ov) o1 o2 =
                Compared e o2 /\
                fastestTime e = Z.min db dv /\ slowestTime e = Z.max db dv
  | _, _ => compare_timings (two_entries ob ov) o1 o2 = Unavailable
  end.
Proof.
  intros Hp. destruct ob as [db|], ov as [dv|]; simpl in *.
  - set (m := <["BrasilAPI":=db]> {["ViaCEP":=dv]} : gmap string Z) in *.
    assert (Hs : 1 < size m).
    { unfold m. rewrite map_size_insert_None by (by rewrite lookup_singleton_ne).
      rewrite map_size_singleton. lia. }
    exists (range_extremes o1). split; [by apply compare_timings_compared|].
    apply extremes_two, range_extremes_map; [|done | by apply map_size_gt_nonempty].
    intros k d [[-> _] | (-> & _ & _)]%lookup_two_Some; done.
  - unfold compare_timings. rewrite bool_decide_eq_false_2; [done|].
    rewrite map_size_insert_None, map_size_empty by done. lia.
  - unfold compare_timings. rewrite bool_decide_eq_false_2; [done|].
    rewrite map_size_singleton. lia.
  - unfold compare_timings. rewrite bool_decide_eq_false_2; [done|].
    rewrite map_size_empty. lia.
Qed.

(** ** Applications to sample timings *)

Definition sample_map : gmap string Z := <["BrasilAPI":=120%Z]> {["ViaCEP":=300%Z]}.
Definition sample_order : list (string * Z) := [("BrasilAPI", 120%Z); ("ViaCEP", 300%Z)].
Definition sample_order' : list (string * Z) := [("ViaCEP", 300%Z); ("BrasilAPI", 120%Z)].

Lemma sample_keys : map_Forall (fun k (_ : Z) => k <> "") sample_map.
Proof. intros k d [[-> _] | (-> & _ & _)]%lookup_two_Some; discriminate. Qed.

Lemma range_extremes_correct_witness :
  (fastest (range_extremes sample_order), fastestTime (range_extremes sample_order)) ∈ sample_order /\
  (slowest (range_extremes sample_order), slowestTime (range_extremes sample_order)) ∈ sample_order /\
  Forall (fun kv => fastestTime (range_extremes sample_order) <= kv.2 <=
                    slowestTime (range_extremes sample_order))%Z sample_order.
Proof.
  apply range_extremes_correct; [discriminate|].
  repeat constructor; simpl; discriminate.
Defined.

Lemma compare_timings_correct_witness :
  exists e, compare_timings sample_map sample_order sample_order' =
            Compared e sample_order' /\
            extremes_of_map sample_map e.
Proof.
  apply compare_timings_correct.
  - apply sample_keys.
  - apply (bool_decide_unpack _). vm_compute. reflexivity.
  - vm_compute. lia.
Defined.

Lemma range_extremes_order_independent_witness :
  fastestTime (range_extremes sample_order) = fastestTime (range_extremes sample_order') /\
  slowestTime (range_extremes sample_order) = slowestTime (range_extremes sample_order') /\
  ((forall k1 k2 d, sample_map !! k1 = Some d -> sample_map !! k2 = Some d -> k1 = k2) ->
   range_extremes sample_order = range_extremes sample_order').
Proof.
  apply (range_extremes_order_independent sample_map).
  - apply sample_keys.
  - vm_compute. discriminate.
  - apply (bool_decide_unpack _). vm_compute. reflexivity.
  - apply (bool_decide_unpack _). vm_compute. reflexivity.
Defined.

Lemma compare_two_timings_witness :
  compare_timings (<["BrasilAPI":=120%Z]> {["ViaCEP":=300%Z]}) sample_order sample_order' =
  Compared (mkExtremes "BrasilAPI" 120 "ViaCEP" 300) sample_order'.
Proof.
  apply compare_two_timings; try discriminate; [lia|].
  apply (bool_decide_unpack _). vm_compute. reflexivity.
Defined.
