(* ===== verification/Race.v ===== *)
(** * The race of main.go as an interleaving semantics

    The state of the running program after main.go 72 (both [go]
    statements executed) is a [World]: the two fetch goroutines, [main],
    the detached comparison goroutine ("the aggregator", main.go 98-134),
    the buffer of [resultChan], the counter of [wg], the holder of
    [timingMutex], the map [timingResults], whether [ctx]'s deadline has
    passed, and the printed output.  Two ghost lists record every value
    sent on and received from the channel, in order.

    [exec_event] performs one [Event], an atomic step of one goroutine or
    the firing of a timer, and returns [None] when the event is not
    enabled: a blocked channel send, a held mutex, a WaitGroup not yet
    at zero, a [select] with no ready case, or a step that would panic
    (unlock of an unlocked mutex, negative WaitGroup counter).  Once
    [main] returns the process exits and no event is enabled.  A schedule
    is a list of events; every schedule [run] accepts is an interleaving
    the Go runtime may produce. *)

From S2P Require Import Prelude Types Fetch Timing.

(** ** State *)

(** A fetch goroutine: its external calls have not returned yet, or it
    runs its script of shared-state actions; [pc] actions are done (the
    whole script is kept as ghost state). *)
Inductive TaskState : Type :=
| TStart
| TRunning (script : list Action) (pc : nat).

(** The goroutines that can hold [timingMutex]. *)
Inductive Gid : Type :=
| GFetch (b : Backend)
| GAgg.

#[export] Instance Gid_eq_dec : EqDecision Gid.
Proof. solve_decision. Defined.

(** Where [main] is: the first [select] (main.go 75), the second
    [select] (137), [time.Sleep] (143), or returned. *)
Inductive MainPC : Type :=
| MSelect1
| MSelect2
| MSleep
| MExit.

#[export] Instance MainPC_eq_dec : EqDecision MainPC.
Proof. solve_decision. Defined.

(** Where the comparison goroutine is: not started, at [wg.Wait()] (99),
    at [timingMutex.Lock()] (103), holding the mutex (104-133), returned
    (with the deferred unlock done). *)
Inductive AggPC : Type :=
| AggNotStarted
| AggWaiting
| AggLocking
| AggHolding
| AggFinished.

#[export] Instance AggPC_eq_dec : EqDecision AggPC.
Proof. solve_decision. Defined.

(** What the program prints, line group by line group. *)
Inductive Output : Type :=
| OSearching (cep : string)      (* "Buscando informações para o CEP: %s" *)
| OApiError (api : string) (e : GoError)   (* "Erro na API %s: %v" *)
| OFastest (api : string) (d : Z)          (* "Resposta mais rápida da API: %s (%.3fs)" *)
| OAddress (a : Address)                   (* "CEP: ...\nEstado: ...\n..." *)
| OTimeout                                 (* "Erro: Timeout após 1 segundo" *)
| OComparisonHeader                        (* "=== Comparativo de Tempo de Resposta ===" *)
| OComparison (c : Comparison).

Record World : Type := mkWorld {
  w_cep : string;
  w_tasks : Backend -> TaskState;
  w_main : MainPC;
  w_agg : AggPC;
  w_chan : list Response;            (* the buffer of resultChan *)
  w_sent : list Response;            (* ghost: every value sent *)
  w_recvd : list Response;           (* ghost: every value received *)
  w_wg : Z;                          (* the counter of wg *)
  w_mutex : option Gid;              (* the goroutine in timingMutex *)
  w_timing : gmap string Z;          (* timingResults *)
  w_ctx_done : bool;                 (* ctx's deadline has passed *)
  w_out : list Output                (* printed, oldest first *)
}.

(** [make(chan Response, 2)] *)
Definition chan_cap : nat := 2.

(** ** Field updates *)

Definition set_task (b : Backend) (t : TaskState) (w : World) : World :=
  mkWorld (w_cep w) (fun b' => if decide (b' = b) then t else w_tasks w b') (w_main w)
    (w_agg w) (w_chan w) (w_sent w) (w_recvd w) (w_wg w) (w_mutex w) (w_timing w)
    (w_ctx_done w) (w_out w).

Definition set_main (m : MainPC) (w : World) : World :=
  mkWorld (w_cep w) (w_tasks w) m (w_agg w) (w_chan w) (w_sent w) (w_recvd w) (w_wg w)
    (w_mutex w) (w_timing w) (w_ctx_done w) (w_out w).

Definition set_agg (a : AggPC) (w : World) : World :=
  mkWorld (w_cep w) (w_tasks w) (w_main w) a (w_chan w) (w_sent w) (w_recvd w) (w_wg w)
    (w_mutex w) (w_timing w) (w_ctx_done w) (w_out w).

Definition set_wg (g : Z) (w : World) : World :=
  mkWorld (w_cep w) (w_tasks w) (w_main w) (w_agg w) (w_chan w) (w_sent w) (w_recvd w) g
    (w_mutex w) (w_timing w) (w_ctx_done w) (w_out w).

Definition set_mutex (mu : option Gid) (w : World) : World :=
  mkWorld (w_cep w) (w_tasks w) (w_main w) (w_agg w) (w_chan w) (w_sent w) (w_recvd w)
    (w_wg w) mu (w_timing w) (w_ctx_done w) (w_out w).

Definition set_timing (tm : gmap string Z) (w : World) : World :=
  mkWorld (w_cep w) (w_tasks w) (w_main w) (w_agg w) (w_chan w) (w_sent w) (w_recvd w)
    (w_wg w) (w_mutex w) tm (w_ctx_done w) (w_out w).

Definition set_ctx_done (w : World) : World :=
  mkWorld (w_cep w) (w_tasks w) (w_main w) (w_agg w) (w_chan w) (w_sent w) (w_recvd w)
    (w_wg w) (w_mutex w) (w_timing w) true (w_out w).

Definition print (l : list Output) (w : World) : World :=
  mkWorld (w_cep w) (w_tasks w) (w_main w) (w_agg w) (w_chan w) (w_sent w) (w_recvd w)
    (w_wg w) (w_mutex w) (w_timing w) (w_ctx_done w) (w_out w ++ l).

(** [resultChan <- resp] into the buffer, recorded in the ghost history. *)
Definition push (resp : Response) (w : World) : World :=
  mkWorld (w_cep w) (w_tasks w) (w_main w) (w_agg w) (w_chan w ++ [resp])
    (w_sent w ++ [resp]) (w_recvd w) (w_wg w) (w_mutex w) (w_timing w) (w_ctx_done w)
    (w_out w).

(** [<-resultChan] from the head of the buffer. *)
Definition pop (w : World) : option (Response * World) :=
  match w_chan w with
  | [] => None
  | resp :: rest =>
      Some (resp, mkWorld (w_cep w) (w_tasks w) (w_main w) (w_agg w) rest (w_sent w)
                    (w_recvd w ++ [resp]) (w_wg w) (w_mutex w) (w_timing w)
                    (w_ctx_done w) (w_out w))
  end.

(** ** Steps of the fetch goroutines *)

(** One shared-state action of fetch [b]. *)
Definition exec_action (b : Backend) (act : Action) (w : World) : option World :=
  match act with
  | ALock =>
      match w_mutex w with
      | None => Some (set_mutex (Some (GFetch b)) w)
      | Some _ => None                        (* blocks *)
      end
  | AStore k d => Some (set_timing (<[k:=d]> (w_timing w)) w)
  | AUnlock =>
      match w_mutex w with
      | Some _ => Some (set_mutex None w)
      | None => None                          (* fatal: unlock of unlocked mutex *)
      end
  | ASend r =>
      if bool_decide (length (w_chan w) < chan_cap)
      then Some (push r w)
      else None                               (* blocks: buffer full *)
  | ADone =>
      if bool_decide (0 < w_wg w)%Z
      then Some (set_wg (w_wg w - 1)%Z w)
      else None                               (* panic: negative counter *)
  end.

(** ** Steps of main *)

(** What the first [select] prints for the value it received
    (main.go 77-91). *)
Definition report (r : Response) : list Output :=
  match Error r with
  | Some e => [OApiError (APIName r) e]
  | None =>
      OFastest (APIName r) (Duration r) ::
      match address_of (Data r) with
      | Some a => [OAddress a]
      | None => []
      end
  end.

(** ** Events *)

Inductive Event : Type :=
| EvFetchCalls (b : Backend) (o : Obs (schema b))
    (* the external calls of fetch b return, as observed in o *)
| EvFetchStep (b : Backend)       (* fetch b performs its next action *)
| EvDeadline                      (* ctx's 1s deadline passes *)
| EvMainRecv                      (* a select of main takes <-resultChan *)
| EvMainCtxDone                   (* the first select takes <-ctx.Done() *)
| EvMainAfter                     (* the second select takes time.After *)
| EvMainWake                      (* time.Sleep returns; main returns *)
| EvAggWait                       (* wg.Wait() returns *)
| EvAggLock                       (* timingMutex.Lock() returns *)
| EvAggReport (order1 order2 : list (string * Z)).
    (* the comparison is printed, visiting the map in these orders,
       then the deferred Unlock runs *)

Definition exec_event (ev : Event) (w : World) : option World :=
  if decide (w_main w = MExit) then None else
  match ev with
  | EvFetchCalls b o =>
      match w_tasks w b with
      | TStart =>
          if bool_decide (duration_ok (obs_elapsed o))
          then Some (set_task b (TRunning (fetch b (w_cep w) o) 0) w)
          else None
      | TRunning _ _ => None
      end
  | EvFetchStep b =>
      match w_tasks w b with
      | TRunning s pc =>
          match s !! pc with
          | Some act => exec_action b act (set_task b (TRunning s (S pc)) w)
          | None => None
          end
      | TStart => None
      end
  | EvDeadline =>
      if w_ctx_done w then None else Some (set_ctx_done w)
  | EvMainRecv =>
      match w_main w, pop w with
      | MSelect1, Some (r, w') =>
          match Error r with
          | Some _ => Some (set_main MExit (print (report r) w'))
          | None => Some (set_main MSelect2 (set_agg AggWaiting (print (report r) w')))
          end
      | MSelect2, Some (_, w') => Some (set_main MSleep w')
      | _, _ => None
      end
  | EvMainCtxDone =>
      if bool_decide (w_main w = MSelect1) && w_ctx_done w
      then Some (set_main MExit (print [OTimeout] w))
      else None
  | EvMainAfter =>
      if decide (w_main w = MSelect2) then Some (set_main MSleep w) else None
  | EvMainWake =>
      if decide (w_main w = MSleep) then Some (set_main MExit w) else None
  | EvAggWait =>
      if bool_decide (w_agg w = AggWaiting) && bool_decide (w_wg w = 0)%Z
      then Some (set_agg AggLocking (print [OComparisonHeader] w))
      else None
  | EvAggLock =>
      match w_agg w, w_mutex w with
      | AggLocking, None => Some (set_agg AggHolding (set_mutex (Some GAgg) w))
      | _, _ => None
      end
  | EvAggReport o1 o2 =>
      if bool_decide (w_agg w = AggHolding) && bool_decide (iteration_order (w_timing w) o1)
         && bool_decide (iteration_order (w_timing w) o2)
      then match w_mutex w with
           | Some _ =>
               Some (set_agg AggFinished (set_mutex None
                 (print [OComparison (compare_timings (w_timing w) o1 o2)] w)))
           | None => None
           end
      else None
  end.

(** A schedule, run from a world. *)
Fixpoint run (evs : list Event) (w : World) : option World :=
  match evs with
  | [] => Some w
  | ev :: rest => exec_event ev w ≫= run rest
  end.

(** ** The start of main *)

(** The world after main.go 52-72 for the CEP [cep]. *)
Definition init_world (cep : string) : World :=
  mkWorld cep (fun _ => TStart) MSelect1 AggNotStarted [] [] [] 2%Z None ∅ false
    [OSearching cep].

(** main.go 47-52: without an argument only the usage line is printed. *)
Inductive Launch : Type :=
| Usage
| Launched (w : World).

Definition main_start (args : list string) : Launch :=
  match args with
  | _ :: cep :: _ => Launched (init_world cep)
  | _ => Usage
  end.

(** ** The same semantics as a step relation *)

(** One rule per atomic action of a goroutine or timer, for a live
    process (the [alive] premise of [step]). *)
Inductive gstep (w : World) : World -> Prop :=
| step_calls b (o : Obs (schema b)) :
    w_tasks w b = TStart -> duration_ok (obs_elapsed o) ->
    gstep w (set_task b (TRunning (fetch b (w_cep w) o) 0) w)
| step_lock b s pc :
    w_tasks w b = TRunning s pc -> s !! pc = Some ALock -> w_mutex w = None ->
    gstep w (set_mutex (Some (GFetch b)) (set_task b (TRunning s (S pc)) w))
| step_store b s pc k d :
    w_tasks w b = TRunning s pc -> s !! pc = Some (AStore k d) ->
    gstep w (set_timing (<[k:=d]> (w_timing w)) (set_task b (TRunning s (S pc)) w))
| step_unlock b s pc g :
    w_tasks w b = TRunning s pc -> s !! pc = Some AUnlock -> w_mutex w = Some g ->
    gstep w (set_mutex None (set_task b (TRunning s (S pc)) w))
| step_send b s pc r :
    w_tasks w b = TRunning s pc -> s !! pc = Some (ASend r) ->
    length (w_chan w) < chan_cap ->
    gstep w (push r (set_task b (TRunning s (S pc)) w))
| step_done b s pc :
    w_tasks w b = TRunning s pc -> s !! pc = Some ADone -> (0 < w_wg w)%Z ->
    gstep w (set_wg (w_wg w - 1)%Z (set_task b (TRunning s (S pc)) w))
| step_deadline :
    w_ctx_done w = false -> gstep w (set_ctx_done w)
| step_recv_error r w1 e :
    w_main w = MSelect1 -> pop w = Some (r, w1) -> Error r = Some e ->
    gstep w (set_main MExit (print (report r) w1))
| step_recv_winner r w1 :
    w_main w = MSelect1 -> pop w = Some (r, w1) -> Error r = None ->
    gstep w (set_main MSelect2 (set_agg AggWaiting (print (report r) w1)))
| step_recv_drain r w1 :
    w_main w = MSelect2 -> pop w = Some (r, w1) -> gstep w (set_main MSleep w1)
| step_timeout :
    w_main w = MSelect1 -> w_ctx_done w = true ->
    gstep w (set_main MExit (print [OTimeout] w))
| step_after :
    w_main w = MSelect2 -> gstep w (set_main MSleep w)
| step_wake :
    w_main w = MSleep -> gstep w (set_main MExit w)
| step_agg_wait :
    w_agg w = AggWaiting -> w_wg w = 0%Z ->
    gstep w (set_agg AggLocking (print [OComparisonHeader] w))
| step_agg_lock :
    w_agg w = AggLocking -> w_mutex w = None ->
    gstep w (set_agg AggHolding (set_mutex (Some GAgg) w))
| step_agg_report o1 o2 g :
    w_agg w = AggHolding -> iteration_order (w_timing w) o1 ->
    iteration_order (w_timing w) o2 -> w_mutex w = Some g ->
    gstep w (set_agg AggFinished (set_mutex None
      (print [OComparison (compare_timings (w_timing w) o1 o2)] w))).

Definition alive (w : World) : Prop := w_main w <> MExit.

Definition step (w w' : World) : Prop := alive w /\ gstep w w'.

(** ** The interpreter implements the step relation *)

Lemma exec_action_gstep b s pc act w w' :
  w_tasks w b = TRunning s pc -> s !! pc = Some act ->
  exec_action b act (set_task b (TRunning s (S pc)) w) = Some w' -> gstep w w'.
Proof.
  intros Ht Hs Hx. destruct act; simpl in Hx; repeat case_match; simplify_eq.
  - by eapply step_lock.
  - by eapply step_store.
  - by eapply step_unlock.
  - eapply step_send; [done | done | by apply bool_decide_eq_true in H].
  - eapply step_done; [done | done | by apply bool_decide_eq_true in H].
Qed.

(** Every event the interpreter accepts is a step of the relational
    semantics, and every step is performed by some event: [exec_event]
    and [step] define the same transitions. *)
Lemma exec_event_iff w w' :
  (exists ev, exec_event ev w = Some w') <-> step w w'.
Proof.
  split.
  - intros [ev Hx]. unfold exec_event in Hx. case_decide as Halive; [done|].
    split; [exact Halive|].
    destruct ev; repeat case_match; simplify_eq;
      try (eapply exec_action_gstep; eauto; fail);
      repeat match goal with H : bool_decide _ = true |- _ => apply bool_decide_eq_true in H end;
      repeat match goal with H : (_ && _) = true |- _ => apply andb_true_iff in H as [? ?] end;
      repeat match goal with H : bool_decide _ = true |- _ => apply bool_decide_eq_true in H end;
      first [by apply step_after | econstructor; eauto].
  - intros [Halive Hg].
    destruct Hg;
      [ exists (EvFetchCalls b o) | exists (EvFetchStep b) .. | exists EvDeadline
      | exists EvMainRecv | exists EvMainRecv | exists EvMainRecv | exists EvMainCtxDone
      | exists EvMainAfter | exists EvMainWake | exists EvAggWait | exists EvAggLock
      | exists (EvAggReport o1 o2) ];
      unfold exec_event; rewrite decide_False by done;
      repeat match goal with H : _ = _ |- _ => rewrite H end; simpl;
      repeat match goal with H : _ = _ |- _ => rewrite H end;
      repeat (rewrite bool_decide_eq_true_2 by (done || lia)); simpl; try done.
Qed.

Lemma run_app evs1 evs2 w :
  run (evs1 ++ evs2) w = run evs1 w ≫= run evs2.
Proof.
  revert w. induction evs1 as [|ev evs1 IH]; intros w; simpl; [done|].
  destruct (exec_event ev w); simpl; [apply IH | done].
Qed.

(** ** Sample runs *)

(** Concrete observations and schedules for the CEP of the usage line,
    used to apply the theorems to worlds the program can reach. *)
Module Samples.
Import Brasil Via.

Definition cep : string := "01153000".

Definition brasil_data : BrasilAPICEP :=
  mkBrasilAPICEP "01153000" "SP" "São Paulo" "Barra Funda" "Rua Vitorino Carmilo" "open-cep".

Definition via_data : ViaCEP :=
  mkViaCEP "01153-000" "Rua Vitorino Carmilo" "" "Barra Funda" "São Paulo" "SP"
    "3550308" "1004" "11" "7107".

(** Every call succeeds and the body decodes to [data]. *)
Definition obs_ok {T} (data : T) (d : Z) : Obs T :=
  mkObs (fun _ => Ok tt) (fun _ => Ok StatusOK) (Ok []) (fun _ => Ok data) d.

(** The server answers with [code]. *)
Definition obs_status {T} (code : Z) (d : Z) : Obs T :=
  mkObs (fun _ => Ok tt) (fun _ => Ok code) (Ok []) (fun _ => Err "unexpected") d.

(** [client.Do] is cancelled by the deadline. *)
Definition obs_cancelled {T} (d : Z) : Obs T :=
  mkObs (fun _ => Ok tt) (fun _ => Err "context deadline exceeded") (Ok [])
    (fun _ => Err "unexpected") d.

Definition brasil_ok : Event := EvFetchCalls BrasilAPI (obs_ok brasil_data 120).
Definition via_ok : Event := EvFetchCalls ViaCEPAPI (obs_ok via_data 300).

(** The world after a schedule, and whether the schedule runs. *)
Definition after (evs : list Event) : World :=
  default (init_world cep) (run evs (init_world cep)).

Definition runs (evs : list Event) : bool :=
  match run evs (init_world cep) with Some _ => true | None => false end.

(** Both fetches succeed, BrasilAPI first; the comparison is printed. *)
Definition both_ok : list Event :=
  [brasil_ok; EvFetchStep BrasilAPI; EvFetchStep BrasilAPI; EvFetchStep BrasilAPI;
   EvFetchStep BrasilAPI; EvMainRecv; via_ok; EvFetchStep ViaCEPAPI;
   EvFetchStep ViaCEPAPI; EvFetchStep ViaCEPAPI; EvFetchStep ViaCEPAPI;
   EvFetchStep BrasilAPI; EvFetchStep ViaCEPAPI; EvMainRecv; EvAggWait; EvAggLock;
   EvAggReport [("BrasilAPI", 120%Z); ("ViaCEP", 300%Z)]
               [("ViaCEP", 300%Z); ("BrasilAPI", 120%Z)]].

(** BrasilAPI wins, then [main] gives up on the second value and
    returns before ViaCEP answers. *)
Definition winner_then_exit : list Event :=
  [brasil_ok; EvFetchStep BrasilAPI; EvFetchStep BrasilAPI; EvFetchStep BrasilAPI;
   EvFetchStep BrasilAPI; EvMainRecv; EvMainAfter; EvMainWake].

(** BrasilAPI answers 404 first. *)
Definition brasil_404 : list Event :=
  [EvFetchCalls BrasilAPI (obs_status 404 80); EvFetchStep BrasilAPI; EvMainRecv].

(** The deadline passes before any response. *)
Definition deadline_first : list Event :=
  [EvDeadline; EvMainCtxDone].

(** Both fetches succeed; BrasilAPI holds the mutex when ViaCEP
    reaches [mu.Lock()]. *)
Definition contention : list Event :=
  [brasil_ok; EvFetchStep BrasilAPI; via_ok].
End Samples.
