(* ===== verification/RaceInv.v ===== *)
(** * The shared-state invariant of the race

    [shared_inv] relates the synchronisation objects of main.go to what
    the goroutines have done: the channel buffer is what was sent and not
    yet received; each backend has sent exactly the responses its script
    has reached; the WaitGroup counter is the number of [wg.Done()] calls
    still to come; the goroutines inside a critical section of
    [timingMutex] are exactly its holder; the timing map holds the
    duration of each fetch that has passed its store; and the comparison
    goroutine is past [wg.Wait()] only when the counter is zero.  Every
    step preserves it ([shared_inv_step]), so it holds after every
    schedule the interpreter accepts ([shared_inv_run]). *)

From S2P Require Import Prelude Types Fetch Timing Race.

(** ** Summaries of a fetch goroutine *)

(** The actions done and still to do. *)
Definition done_acts (t : TaskState) : list Action :=
  match t with TStart => [] | TRunning s pc => take pc s end.

Definition todo_acts (t : TaskState) : list Action :=
  match t with TStart => [] | TRunning s pc => drop pc s end.

(** Sends and [wg.Done()] calls still to come: a goroutine whose calls
    have not returned will do one of each. *)
Definition pending_sends (t : TaskState) : nat :=
  match t with TStart => 1 | TRunning _ _ => length (sends (todo_acts t)) end.

Definition pending_dones (t : TaskState) : nat :=
  match t with TStart => 1 | TRunning _ _ => count_if is_done (todo_acts t) end.

(** Inside the critical section [mu.Lock() ... mu.Unlock()]. *)
Definition in_cs (t : TaskState) : bool :=
  match t with
  | TRunning s pc =>
      match s !! pc with
      | Some (AStore _ _) | Some AUnlock => true
      | _ => false
      end
  | TStart => false
  end.

(** The duration the goroutine has stored in the map, if it has. *)
Definition stored (t : TaskState) : option Z :=
  match stores (done_acts t) with
  | (_, d) :: _ => Some d
  | [] => None
  end.

(** Its script is one of the two paths of [task_script] for its API name
    and a [time.Since] reading. *)
Definition task_wf (b : Backend) (t : TaskState) : Prop :=
  match t with
  | TStart => True
  | TRunning s pc =>
      (exists d, duration_ok d /\ script_shape (api_name b) d s) /\ pc <= length s
  end.

(** The responses in [l] sent under the name [a]. *)
Definition sent_by (a : string) (l : list Response) : list Response :=
  List.filter (fun r => bool_decide (APIName r = a)) l.

(** The goroutines inside a critical section of [timingMutex]. *)
Definition holders (ts : Backend -> TaskState) (a : AggPC) : list Gid :=
  (if in_cs (ts BrasilAPI) then [GFetch BrasilAPI] else []) ++
  (if in_cs (ts ViaCEPAPI) then [GFetch ViaCEPAPI] else []) ++
  (if bool_decide (a = AggHolding) then [GAgg] else []).

Definition holder_list (mu : option Gid) : list Gid :=
  match mu with Some g => [g] | None => [] end.

(** The comparison goroutine has returned from [wg.Wait()]. *)
Definition agg_past_wait (a : AggPC) : bool :=
  match a with
  | AggLocking | AggHolding | AggFinished => true
  | AggNotStarted | AggWaiting => false
  end.

(** A quantity summed over the two fetch goroutines. *)
Definition tsum (f : TaskState -> nat) (ts : Backend -> TaskState) : nat :=
  f (ts BrasilAPI) + f (ts ViaCEPAPI).

Record shared_inv (w : World) : Prop := {
  si_wf : forall b, task_wf b (w_tasks w b);
  si_chan : w_sent w = w_recvd w ++ w_chan w;
  si_sent_by : forall b, sent_by (api_name b) (w_sent w) = sends (done_acts (w_tasks w b));
  si_sent_len : length (w_sent w) = tsum (fun t => length (sends (done_acts t))) (w_tasks w);
  si_wg : w_wg w = Z.of_nat (tsum pending_dones (w_tasks w));
  si_mutex : holders (w_tasks w) (w_agg w) = holder_list (w_mutex w);
  si_timing : forall k, w_timing w !! k = backend_of_name k ≫= fun b => stored (w_tasks w b);
  si_agg_start : w_main w = MSelect1 -> w_agg w = AggNotStarted;
  si_quiescent : agg_past_wait (w_agg w) = true -> w_wg w = 0%Z
}.

(** ** One action of a script *)

Section Advance.
Context (b : Backend) (s : list Action) (pc : nat) (act : Action).
Context (Hwf : task_wf b (TRunning s pc)) (Hact : s !! pc = Some act).

Lemma done_acts_advance :
  done_acts (TRunning s (S pc)) = done_acts (TRunning s pc) ++ [act].
Proof. simpl. by apply take_S_r. Qed.

Lemma todo_acts_advance :
  todo_acts (TRunning s pc) = act :: todo_acts (TRunning s (S pc)).
Proof. simpl. by apply drop_S. Qed.

Lemma task_wf_advance : task_wf b (TRunning s (S pc)).
Proof.
  destruct Hwf as [Hshape _]. split; [done|].
  apply lookup_lt_Some in Hact. lia.
Qed.

(** Which action comes next decides whether the goroutine is in its
    critical section before and after it. *)
Lemma in_cs_before :
  in_cs (TRunning s pc) = match act with AStore _ _ | AUnlock => true | _ => false end.
Proof. simpl. by rewrite Hact. Qed.

Lemma in_cs_after :
  in_cs (TRunning s (S pc)) = match act with ALock | AStore _ _ => true | _ => false end.
Proof.
  destruct Hwf as [(d & _ & Hshape) _]. simpl.
  destruct Hshape; destruct pc as [|[|[|[|[|?]]]]]; simplify_eq/=; done.
Qed.

Lemma send_api r : act = ASend r -> APIName r = api_name b.
Proof.
  intros ->. destruct Hwf as [(d & _ & Hshape) _].
  destruct Hshape; destruct pc as [|[|[|[|[|?]]]]]; simplify_eq/=; done.
Qed.

Lemma store_key k d : act = AStore k d ->
  k = api_name b /\ duration_ok d /\ stored (TRunning s pc) = None.
Proof.
  intros ->. destruct Hwf as [(d' & ? & Hshape) _].
  destruct Hshape; destruct pc as [|[|[|[|[|?]]]]]; simplify_eq/=; done.
Qed.
End Advance.

(** ** Updating one goroutine *)

Lemma set_task_same b t w : w_tasks (set_task b t w) b = t.
Proof. simpl. by rewrite decide_True. Qed.

Lemma set_task_other b b' t w : b' <> b -> w_tasks (set_task b t w) b' = w_tasks w b'.
Proof. intros Hne. simpl. by rewrite decide_False. Qed.

(** [set_task] changes only [w_tasks]. *)
Lemma w_cep_set_task b t w : w_cep (set_task b t w) = w_cep w.
Proof. reflexivity. Qed.
Lemma w_main_set_task b t w : w_main (set_task b t w) = w_main w.
Proof. reflexivity. Qed.
Lemma w_agg_set_task b t w : w_agg (set_task b t w) = w_agg w.
Proof. reflexivity. Qed.
Lemma w_chan_set_task b t w : w_chan (set_task b t w) = w_chan w.
Proof. reflexivity. Qed.
Lemma w_sent_set_task b t w : w_sent (set_task b t w) = w_sent w.
Proof. reflexivity. Qed.
Lemma w_recvd_set_task b t w : w_recvd (set_task b t w) = w_recvd w.
Proof. reflexivity. Qed.
Lemma w_wg_set_task b t w : w_wg (set_task b t w) = w_wg w.
Proof. reflexivity. Qed.
Lemma w_mutex_set_task b t w : w_mutex (set_task b t w) = w_mutex w.
Proof. reflexivity. Qed.
Lemma w_timing_set_task b t w : w_timing (set_task b t w) = w_timing w.
Proof. reflexivity. Qed.
Lemma w_ctx_done_set_task b t w : w_ctx_done (set_task b t w) = w_ctx_done w.
Proof. reflexivity. Qed.
Lemma w_out_set_task b t w : w_out (set_task b t w) = w_out w.
Proof. reflexivity. Qed.

Create Rewrite HintDb world.
#[export] Hint Rewrite w_cep_set_task w_main_set_task w_agg_set_task w_chan_set_task w_sent_set_task w_recvd_set_task w_wg_set_task w_mutex_set_task w_timing_set_task w_ctx_done_set_task w_out_set_task set_task_same : world.

(** Read the fields of an updated world. *)
Ltac wsimpl :=
  cbn [set_main set_agg set_wg set_mutex set_timing set_ctx_done print push
       w_cep w_main w_agg w_chan w_sent w_recvd w_wg w_mutex w_timing w_ctx_done w_out
       w_tasks] in *;
  autorewrite with world in *.

Lemma tsum_set_task f b t w :
  tsum f (w_tasks (set_task b t w)) + f (w_tasks w b) = tsum f (w_tasks w) + f t.
Proof. unfold tsum. destruct b; simpl; lia. Qed.

Lemma sent_by_app a l1 l2 : sent_by a (l1 ++ l2) = sent_by a l1 ++ sent_by a l2.
Proof. apply List.filter_app. Qed.

Lemma sent_by_one a r :
  sent_by a [r] = if bool_decide (APIName r = a) then [r] else [].
Proof. unfold sent_by. simpl. by case_bool_decide. Qed.

Lemma shared_inv_init cep : shared_inv (init_world cep).
Proof.
  split; simpl; try done.
  intros k. rewrite lookup_empty. by destruct (backend_of_name k).
Qed.

Lemma tsum_set_task_eq f b t w :
  f t = f (w_tasks w b) -> tsum f (w_tasks (set_task b t w)) = tsum f (w_tasks w).
Proof. pose proof (tsum_set_task f b t w). lia. Qed.

Lemma holders_set_task b t w a :
  in_cs t = in_cs (w_tasks w b) -> holders (w_tasks (set_task b t w)) a = holders (w_tasks w) a.
Proof. unfold holders. destruct b; simpl; intros ->; done. Qed.

Lemma timing_set_task b t w k :
  stored t = stored (w_tasks w b) ->
  backend_of_name k ≫= (fun b' => stored (w_tasks (set_task b t w) b')) =
  backend_of_name k ≫= (fun b' => stored (w_tasks w b')).
Proof.
  intros Heq. destruct (backend_of_name k) as [b'|]; simpl; [|done].
  case_decide; subst; done.
Qed.

Lemma forall_set_task (P : Backend -> TaskState -> Prop) b t w :
  (forall b', P b' (w_tasks w b')) -> P b t -> forall b', P b' (w_tasks (set_task b t w) b').
Proof. intros Hall Ht b'. simpl. case_decide; subst; auto. Qed.

(** What one action changes in the summaries of its goroutine. *)
Section AdvanceSummaries.
Context (b : Backend) (s : list Action) (pc : nat) (act : Action).
Context (Hwf : task_wf b (TRunning s pc)) (Hact : s !! pc = Some act).

Lemma sends_done_advance :
  sends (done_acts (TRunning s (S pc))) =
  sends (done_acts (TRunning s pc)) ++ match act with ASend r => [r] | _ => [] end.
Proof. rewrite (done_acts_advance _ _ _ Hact), sends_app. by destruct act. Qed.

Lemma pending_dones_advance :
  pending_dones (TRunning s pc) =
  (if is_done act then 1 else 0) + pending_dones (TRunning s (S pc)).
Proof. simpl. rewrite (drop_S _ _ _ Hact). apply count_if_cons. Qed.

Lemma stored_advance :
  (forall k d, act <> AStore k d) -> stored (TRunning s (S pc)) = stored (TRunning s pc).
Proof.
  intros Hns. unfold stored. rewrite (done_acts_advance _ _ _ Hact), stores_app.
  destruct act; try (by rewrite app_nil_r); by destruct (Hns k d).
Qed.

Lemma stored_advance_store k d :
  act = AStore k d -> stored (TRunning s (S pc)) = Some d.
Proof.
  intros ->. destruct (store_key _ _ _ _ Hwf Hact k d eq_refl) as (_ & _ & Hnone).
  revert Hnone. unfold stored. rewrite (done_acts_advance _ _ _ Hact), stores_app.
  by destruct (stores _) as [|[]].
Qed.
End AdvanceSummaries.

(** ** Preservation by the actions of the fetch goroutines *)

Section FetchStep.
Context (w : World) (b : Backend) (s : list Action) (pc : nat) (act : Action).
Context (Hi : shared_inv w) (Ht : w_tasks w b = TRunning s pc) (Hact : s !! pc = Some act).

Let w1 := set_task b (TRunning s (S pc)) w.
Let Hwf : task_wf b (TRunning s pc).
Proof. rewrite <- Ht. apply Hi. Qed.

Lemma fetch_wf : forall b', task_wf b' (w_tasks w1 b').
Proof. apply (forall_set_task task_wf); [apply Hi | by eapply task_wf_advance]. Qed.

(** For an action that is not a send, the channel bookkeeping is
    unchanged. *)
Lemma fetch_sent_by_nosend :
  (forall r, act <> ASend r) ->
  forall b', sent_by (api_name b') (w_sent w) = sends (done_acts (w_tasks w1 b')).
Proof.
  intros Hns. unfold w1.
  apply (forall_set_task (fun b' t => sent_by (api_name b') (w_sent w) = sends (done_acts t)));
    [apply Hi|].
  rewrite (sends_done_advance _ _ _ Hact), <- Ht, (si_sent_by _ Hi).
  destruct act as [| | |r|]; try by rewrite app_nil_r. by destruct (Hns r).
Qed.

Lemma fetch_sent_len_nosend :
  (forall r, act <> ASend r) ->
  length (w_sent w) = tsum (fun t => length (sends (done_acts t))) (w_tasks w1).
Proof.
  intros Hns. unfold w1. rewrite tsum_set_task_eq, (si_sent_len _ Hi); [done|].
  rewrite (sends_done_advance _ _ _ Hact), Ht, length_app.
  destruct act as [| | |r|]; simpl; try lia. by destruct (Hns r).
Qed.

Lemma fetch_wg_notdone :
  act <> ADone -> Z.of_nat (tsum pending_dones (w_tasks w1)) = w_wg w.
Proof.
  intros Hnd. unfold w1. rewrite tsum_set_task_eq, (si_wg _ Hi); [done|].
  rewrite Ht, (pending_dones_advance _ _ _ Hact). by destruct act.
Qed.

Lemma fetch_timing_nostore :
  (forall k d, act <> AStore k d) ->
  forall k, w_timing w !! k = backend_of_name k ≫= fun b' => stored (w_tasks w1 b').
Proof.
  intros Hns k. unfold w1. rewrite timing_set_task, (si_timing _ Hi); [done|].
  rewrite Ht. by apply (stored_advance _ _ _ Hact).
Qed.

Lemma fetch_holders_same :
  in_cs (TRunning s (S pc)) = in_cs (TRunning s pc) ->
  holders (w_tasks w1) (w_agg w) = holder_list (w_mutex w).
Proof. intros Heq. unfold w1. rewrite holders_set_task, (si_mutex _ Hi); [done|]. by rewrite Ht. Qed.
End FetchStep.

Lemma holders_enter b t w a :
  holders (w_tasks w) a = [] -> in_cs t = true ->
  holders (w_tasks (set_task b t w)) a = [GFetch b].
Proof.
  unfold holders. intros H Hin. destruct b; simpl; rewrite Hin;
    repeat case_match; simplify_eq/=; done.
Qed.

Lemma holders_leave b t w a :
  holders (w_tasks w) a = [GFetch b] -> in_cs t = false ->
  holders (w_tasks (set_task b t w)) a = [].
Proof.
  unfold holders. intros H Hin. destruct b; simpl; rewrite Hin;
    repeat case_match; simplify_eq/=; done.
Qed.

(** The holder of [timingMutex] is the one goroutine in a critical
    section. *)
Lemma holders_in_cs w b :
  shared_inv w -> in_cs (w_tasks w b) = true -> w_mutex w = Some (GFetch b) /\
  holders (w_tasks w) (w_agg w) = [GFetch b].
Proof.
  intros Hi Hin. pose proof (si_mutex _ Hi) as Hm. revert Hm. unfold holders.
  destruct b; rewrite Hin; destruct (w_mutex w); simpl;
    repeat case_match; simplify_eq/=; intros; simplify_eq; done.
Qed.

Lemma shared_inv_lock w b s pc :
  shared_inv w -> w_tasks w b = TRunning s pc -> s !! pc = Some ALock -> w_mutex w = None ->
  shared_inv (set_mutex (Some (GFetch b)) (set_task b (TRunning s (S pc)) w)).
Proof.
  intros Hi Ht Hs Hm. assert (Hwf : task_wf b (TRunning s pc)) by (rewrite <- Ht; apply Hi).
  split; wsimpl; try apply Hi.
  - eapply fetch_wf; eauto.
  - eapply fetch_sent_by_nosend; eauto.
  - eapply fetch_sent_len_nosend; eauto.
  - symmetry; eapply fetch_wg_notdone; eauto.
  - apply holders_enter; [by rewrite (si_mutex _ Hi), Hm | by rewrite (in_cs_after _ _ _ _ Hwf Hs)].
  - eapply fetch_timing_nostore; eauto.
Qed.

Lemma shared_inv_store w b s pc k d :
  shared_inv w -> w_tasks w b = TRunning s pc -> s !! pc = Some (AStore k d) ->
  shared_inv (set_timing (<[k:=d]> (w_timing w)) (set_task b (TRunning s (S pc)) w)).
Proof.
  intros Hi Ht Hs. assert (Hwf : task_wf b (TRunning s pc)) by (rewrite <- Ht; apply Hi).
  destruct (store_key _ _ _ _ Hwf Hs k d eq_refl) as (-> & _ & Hnone).
  split; wsimpl; try apply Hi.
  - eapply fetch_wf; eauto.
  - eapply fetch_sent_by_nosend; eauto.
  - eapply fetch_sent_len_nosend; eauto.
  - symmetry; eapply fetch_wg_notdone; eauto.
  - eapply fetch_holders_same; [done | done |].
    by rewrite (in_cs_after _ _ _ _ Hwf Hs), (in_cs_before _ _ _ Hs).
  - intros k'. rewrite lookup_insert.
    case_decide as Hk; [subst k'|].
    + rewrite backend_of_name_api. simpl. rewrite decide_True by done.
      symmetry. by eapply stored_advance_store.
    + rewrite (si_timing _ Hi). destruct (backend_of_name k') as [b'|] eqn:Hb; [|done].
      simpl. apply backend_of_name_Some in Hb. rewrite decide_False; [done|].
      intros ->. congruence.
Qed.

Lemma shared_inv_unlock w b s pc g :
  shared_inv w -> w_tasks w b = TRunning s pc -> s !! pc = Some AUnlock -> w_mutex w = Some g ->
  shared_inv (set_mutex None (set_task b (TRunning s (S pc)) w)).
Proof.
  intros Hi Ht Hs Hm. assert (Hwf : task_wf b (TRunning s pc)) by (rewrite <- Ht; apply Hi).
  split; wsimpl; try apply Hi.
  - eapply fetch_wf; eauto.
  - eapply fetch_sent_by_nosend; eauto.
  - eapply fetch_sent_len_nosend; eauto.
  - symmetry; eapply fetch_wg_notdone; eauto.
  - apply holders_leave; [|by rewrite (in_cs_after _ _ _ _ Hwf Hs)].
    apply holders_in_cs; [done|]. by rewrite Ht, (in_cs_before _ _ _ Hs).
  - eapply fetch_timing_nostore; eauto.
Qed.

Lemma shared_inv_send w b s pc r :
  shared_inv w -> w_tasks w b = TRunning s pc -> s !! pc = Some (ASend r) ->
  shared_inv (push r (set_task b (TRunning s (S pc)) w)).
Proof.
  intros Hi Ht Hs. assert (Hwf : task_wf b (TRunning s pc)) by (rewrite <- Ht; apply Hi).
  pose proof (send_api _ _ _ _ Hwf Hs r eq_refl) as Hapi.
  pose proof (sends_done_advance _ _ _ Hs) as Hsends; simpl in Hsends.
  split; wsimpl; try apply Hi.
  - eapply fetch_wf; eauto.
  - by rewrite (si_chan _ Hi), app_assoc.
  - intros b'. rewrite sent_by_app, sent_by_one, (si_sent_by _ Hi b'). simpl.
    case_decide as Hb; [subst b'; rewrite Ht, bool_decide_eq_true_2 by done; done|].
    rewrite bool_decide_eq_false_2, app_nil_r; [done|].
    rewrite Hapi. intros ?%api_name_inj. congruence.
  - pose proof (tsum_set_task (fun t => length (sends (done_acts t))) b
                  (TRunning s (S pc)) w) as Hsum. simpl in Hsum.
    rewrite Ht, Hsends, length_app in Hsum. simpl in Hsum.
    rewrite length_app, (si_sent_len _ Hi). simpl. lia.
  - symmetry; eapply fetch_wg_notdone; eauto.
  - eapply fetch_holders_same; [done | done |].
    by rewrite (in_cs_after _ _ _ _ Hwf Hs), (in_cs_before _ _ _ Hs).
  - eapply fetch_timing_nostore; eauto.
Qed.

Lemma shared_inv_done w b s pc :
  shared_inv w -> w_tasks w b = TRunning s pc -> s !! pc = Some ADone -> (0 < w_wg w)%Z ->
  shared_inv (set_wg (w_wg w - 1)%Z (set_task b (TRunning s (S pc)) w)).
Proof.
  intros Hi Ht Hs Hpos. assert (Hwf : task_wf b (TRunning s pc)) by (rewrite <- Ht; apply Hi).
  split; wsimpl; try apply Hi.
  - eapply fetch_wf; eauto.
  - eapply fetch_sent_by_nosend; eauto.
  - eapply fetch_sent_len_nosend; eauto.
  - pose proof (tsum_set_task pending_dones b (TRunning s (S pc)) w) as Hsum.
    rewrite Ht, (pending_dones_advance _ _ _ Hs) in Hsum. cbn [is_done] in Hsum.
    rewrite (si_wg _ Hi). lia.
  - eapply fetch_holders_same; [done | done |].
    by rewrite (in_cs_after _ _ _ _ Hwf Hs), (in_cs_before _ _ _ Hs).
  - eapply fetch_timing_nostore; eauto.
  - intros Hp. pose proof (si_quiescent _ Hi Hp). lia.
Qed.

Lemma shared_inv_calls w b (o : Obs (schema b)) :
  shared_inv w -> w_tasks w b = TStart -> duration_ok (obs_elapsed o) ->
  shared_inv (set_task b (TRunning (fetch b (w_cep w) o) 0) w).
Proof.
  intros Hi Ht Hd. pose proof (fetch_shape b (w_cep w) o) as Hshape.
  split; wsimpl; try apply Hi.
  - apply (forall_set_task task_wf); [apply Hi|]. split; [eauto | lia].
  - apply (forall_set_task (fun b' t => sent_by (api_name b') (w_sent w) = sends (done_acts t)));
      [apply Hi|]. by rewrite (si_sent_by _ Hi b), Ht.
  - rewrite tsum_set_task_eq; [apply Hi | by rewrite Ht].
  - rewrite tsum_set_task_eq; [apply Hi|]. rewrite Ht. cbn [pending_dones todo_acts].
    by rewrite drop_0, (script_shape_dones _ _ _ Hshape).
  - rewrite holders_set_task; [apply Hi|]. rewrite Ht. by destruct Hshape.
  - intros k. rewrite timing_set_task; [apply Hi | by rewrite Ht].
Qed.

Lemma pop_Some w r w1 :
  pop w = Some (r, w1) ->
  exists rest, w_chan w = r :: rest /\
  w1 = mkWorld (w_cep w) (w_tasks w) (w_main w) (w_agg w) rest (w_sent w)
         (w_recvd w ++ [r]) (w_wg w) (w_mutex w) (w_timing w) (w_ctx_done w) (w_out w).
Proof. unfold pop. destruct (w_chan w) as [|r' rest]; intros; simplify_eq; eauto. Qed.

Lemma holders_not_holding ts a1 a2 :
  a1 <> AggHolding -> a2 <> AggHolding -> holders ts a1 = holders ts a2.
Proof. intros. unfold holders. by rewrite !bool_decide_eq_false_2. Qed.

Lemma shared_inv_pop w r w1 :
  shared_inv w -> pop w = Some (r, w1) -> shared_inv w1.
Proof.
  intros Hi (rest & Hch & ->)%pop_Some.
  split; simpl; try apply Hi. rewrite (si_chan _ Hi), Hch. by rewrite <- app_assoc.
Qed.

Lemma pop_main w r w1 : pop w = Some (r, w1) -> w_main w1 = w_main w /\ w_agg w1 = w_agg w.
Proof. by intros (rest & _ & ->)%pop_Some. Qed.

(** [go func() {...}()] after the winner is printed. *)
Lemma shared_inv_start_agg w :
  shared_inv w -> w_agg w = AggNotStarted ->
  shared_inv (set_main MSelect2 (set_agg AggWaiting w)).
Proof.
  intros Hi Ha. split; wsimpl; try apply Hi; try done.
  rewrite <- (si_mutex _ Hi). by apply holders_not_holding; [|rewrite Ha].
Qed.

Lemma shared_inv_set_main w m :
  shared_inv w -> m <> MSelect1 -> shared_inv (set_main m w).
Proof. intros Hi Hm. split; wsimpl; try apply Hi; done. Qed.

Lemma shared_inv_print w l : shared_inv w -> shared_inv (print l w).
Proof. intros Hi. split; wsimpl; apply Hi. Qed.

Lemma shared_inv_ctx w : shared_inv w -> shared_inv (set_ctx_done w).
Proof. intros Hi. split; wsimpl; apply Hi. Qed.

Lemma shared_inv_agg_wait w :
  shared_inv w -> w_agg w = AggWaiting -> w_wg w = 0%Z ->
  shared_inv (set_agg AggLocking (print [OComparisonHeader] w)).
Proof.
  intros Hi Ha Hwg. split; wsimpl; try apply Hi; try done.
  - rewrite <- (si_mutex _ Hi). by apply holders_not_holding; [|rewrite Ha].
  - intros Hm. pose proof (si_agg_start _ Hi Hm). congruence.
Qed.

Lemma shared_inv_agg_lock w :
  shared_inv w -> w_agg w = AggLocking -> w_mutex w = None ->
  shared_inv (set_agg AggHolding (set_mutex (Some GAgg) w)).
Proof.
  intros Hi Ha Hm. pose proof (si_mutex _ Hi) as Hh. rewrite Hm, Ha in Hh.
  split; wsimpl; try apply Hi.
  - revert Hh. unfold holders. repeat case_match; done.
  - intros Hs. pose proof (si_agg_start _ Hi Hs). congruence.
  - intros _. apply (si_quiescent _ Hi). by rewrite Ha.
Qed.

Lemma shared_inv_agg_report w c g :
  shared_inv w -> w_agg w = AggHolding -> w_mutex w = Some g ->
  shared_inv (set_agg AggFinished (set_mutex None (print [OComparison c] w))).
Proof.
  intros Hi Ha Hm. pose proof (si_mutex _ Hi) as Hh. rewrite Hm, Ha in Hh.
  split; wsimpl; try apply Hi.
  - revert Hh. unfold holders. repeat case_match; simplify_eq/=; done.
  - intros Hs. pose proof (si_agg_start _ Hi Hs). congruence.
  - intros _. apply (si_quiescent _ Hi). by rewrite Ha.
Qed.

(** Every step preserves the shared-state invariant. *)
Lemma shared_inv_step w w' : shared_inv w -> step w w' -> shared_inv w'.
Proof.
  intros Hi [Halive Hs]. destruct Hs.
  - by apply shared_inv_calls.
  - by eapply shared_inv_lock.
  - by eapply shared_inv_store.
  - by eapply shared_inv_unlock.
  - by eapply shared_inv_send.
  - by eapply shared_inv_done.
  - by apply shared_inv_ctx.
  - apply shared_inv_set_main; [|done]. by eapply shared_inv_print, shared_inv_pop.
  - apply shared_inv_start_agg; [by eapply shared_inv_print, shared_inv_pop|].
    simpl. destruct (pop_main _ _ _ H0) as [Hm Ha]. rewrite Ha. by apply Hi.
  - apply shared_inv_set_main; [|done]. by eapply shared_inv_pop.
  - apply shared_inv_set_main; [by apply shared_inv_print | done].
  - by apply shared_inv_set_main.
  - by apply shared_inv_set_main.
  - by apply shared_inv_agg_wait.
  - by apply shared_inv_agg_lock.
  - by eapply shared_inv_agg_report.
Qed.

(** The invariant holds after any schedule the interpreter accepts. *)
Lemma run_shared_inv evs w w' : shared_inv w -> run evs w = Some w' -> shared_inv w'.
Proof.
  revert w. induction evs as [|ev evs IH]; intros w Hi Hrun; simpl in Hrun.
  - by simplify_eq.
  - destruct (exec_event ev w) as [w1|] eqn:Hx; simplify_eq/=.
    apply (IH w1); [|done]. eapply shared_inv_step; [done|].
    apply exec_event_iff. eauto.
Qed.

(** ** Facts about a well-formed goroutine *)

Lemma done_sends_le1 b t : task_wf b t -> length (sends (done_acts t)) <= 1.
Proof.
  destruct t as [|s pc]; [simpl; lia|]. intros [(d & _ & Hshape) Hpc].
  destruct Hshape; simpl in Hpc; destruct pc as [|[|[|[|[|[|?]]]]]]; simpl; lia.
Qed.

Lemma done_sends_before_send b s pc r :
  task_wf b (TRunning s pc) -> s !! pc = Some (ASend r) -> sends (done_acts (TRunning s pc)) = [].
Proof.
  intros [(d & _ & Hshape) Hpc] Hs.
  destruct Hshape; destruct pc as [|[|[|[|[|?]]]]]; simplify_eq/=; done.
Qed.

(** A goroutine with no [wg.Done()] to come has run its whole script. *)
Lemma no_pending_done_finished b t :
  task_wf b t -> pending_dones t = 0 -> exists s, t = TRunning s (length s).
Proof.
  destruct t as [|s pc]; [done|]. intros [(d & _ & Hshape) Hpc] Hp. exists s.
  destruct Hshape; simpl in *; destruct pc as [|[|[|[|[|[|?]]]]]]; simpl in *; done || lia.
Qed.

(** Once [wg.Wait()] has returned, both fetch goroutines have run their
    whole scripts. *)
Lemma quiescent_finished w b :
  shared_inv w -> agg_past_wait (w_agg w) = true ->
  exists s, w_tasks w b = TRunning s (length s).
Proof.
  intros Hi Hp. pose proof (si_quiescent _ Hi Hp) as Hwg. rewrite (si_wg _ Hi) in Hwg.
  apply no_pending_done_finished with b; [apply Hi|].
  unfold tsum in Hwg. destruct b; lia.
Qed.

(** C13. Along every schedule from the start, the shared-state invariant
    holds: the channel buffer is what was sent and not received, each
    backend's sends are those its script has reached, the WaitGroup
    counter counts the [wg.Done()] calls to come, the mutex holder is the
    one goroutine in a critical section, and the timing map holds the
    stored durations. *)
Theorem shared_inv_run cep evs w :
  run evs (init_world cep) = Some w -> shared_inv w.
Proof.
  apply run_shared_inv, shared_inv_init.
Qed.

Lemma shared_inv_run_witness : shared_inv (Samples.after Samples.both_ok).
Proof. apply (shared_inv_run Samples.cep Samples.both_ok). vm_compute; reflexivity. Defined.
