(* ===== verification/RaceProps.v ===== *)
(** * Properties of the race

    Consequences of [shared_inv] for every reachable world of main.go:
    a fetch goroutine never blocks on its channel send, can only wait on
    [mu.Lock()] while the other fetch goroutine is inside its critical
    section, and sends exactly one response; at most one goroutine is
    ever inside a critical section of [timingMutex]; once the comparison
    goroutine is past [wg.Wait()] the timing map holds exactly the
    durations of the successful fetches, which the comparison prints;
    every response sent is well typed; and [main_inv] describes what
    [main] and the comparison goroutine have printed.  [reachable] is the
    closure of the step relation, equal to the worlds the interpreter
    reaches ([reachable_run]).  Each theorem with hypotheses is applied
    to a world reached by a concrete schedule. *)

From S2P Require Import Prelude Types Fetch Timing Race RaceInv.
Import Brasil Via.

(** ** Reachable worlds *)

(** The worlds reachable from the start of [main] by the step relation,
    by rule induction. *)
Inductive reachable : World -> Prop :=
| reach_init cep : reachable (init_world cep)
| reach_step w w' : reachable w -> step w w' -> reachable w'.

Lemma run_reachable evs w w' :
  reachable w -> run evs w = Some w' -> reachable w'.
Proof.
  revert w. induction evs as [|ev evs IH]; intros w Hr Hrun; simpl in Hrun.
  - by simplify_eq.
  - destruct (exec_event ev w) as [w1|] eqn:Hx; simplify_eq/=.
    apply (IH w1); [|done]. apply (reach_step w); [done|].
    apply exec_event_iff. eauto.
Qed.

(** The interpreter and the step relation agree on what is
    reachable: the worlds reachable by rule induction are exactly those
    some schedule of events produces from the start. *)
Theorem reachable_run w :
  reachable w <-> exists cep evs, run evs (init_world cep) = Some w.
Proof.
  split.
  - induction 1 as [cep | w w' _ (cep & evs & Hrun) Hs].
    + by exists cep, [].
    + apply exec_event_iff in Hs as [ev Hx].
      exists cep, (evs ++ [ev]). by rewrite run_app, Hrun; simpl; rewrite Hx.
  - intros (cep & evs & Hrun). eapply run_reachable; [constructor | exact Hrun].
Qed.

Lemma reachable_shared_inv w : reachable w -> shared_inv w.
Proof.
  induction 1; [apply shared_inv_init | by eapply shared_inv_step].
Qed.

(** The world after a sample schedule that runs is reachable. *)
Lemma reachable_after evs : Samples.runs evs = true -> reachable (Samples.after evs).
Proof.
  unfold Samples.runs, Samples.after.
  destruct (run evs (init_world Samples.cep)) as [w|] eqn:E; [|done].
  intros _. eapply run_reachable; [constructor | exact E].
Qed.

(** ** The channel and the WaitGroup *)

Lemma send_room w b s pc r :
  shared_inv w -> w_tasks w b = TRunning s pc -> s !! pc = Some (ASend r) ->
  length (w_chan w) < chan_cap.
Proof.
  intros Hi Ht Hs.
  assert (Hle : length (w_chan w) <= length (w_sent w))
    by (rewrite (si_chan _ Hi), length_app; lia).
  rewrite (si_sent_len _ Hi) in Hle. unfold tsum, chan_cap in *.
  pose proof (done_sends_le1 _ _ (si_wf _ Hi BrasilAPI)).
  pose proof (done_sends_le1 _ _ (si_wf _ Hi ViaCEPAPI)).
  assert (Hb : sends (done_acts (w_tasks w b)) = []).
  { rewrite Ht. eapply done_sends_before_send; [|exact Hs]. rewrite <- Ht. apply Hi. }
  destruct b; rewrite Hb in Hle; simpl in Hle; lia.
Qed.

(** C1. The buffer of [resultChan] has room whenever a fetch goroutine
    is about to send: capacity 2 for two senders, so no send blocks, even
    after [main] has stopped receiving. *)
Theorem send_never_blocks w b s pc r :
  reachable w -> w_tasks w b = TRunning s pc -> s !! pc = Some (ASend r) ->
  length (w_chan w) < chan_cap.
Proof. intros Hr. apply send_room, reachable_shared_inv, Hr. Qed.

(** C2. A fetch goroutine with an action left can always perform it,
    except a [mu.Lock()] while the other fetch goroutine holds the mutex
    inside its critical section: its channel send never blocks, and
    neither [mu.Unlock()] nor [wg.Done()] ever panics. *)
Theorem fetch_progress w b s pc act :
  reachable w -> alive w -> w_tasks w b = TRunning s pc -> s !! pc = Some act ->
  exec_event (EvFetchStep b) w = None ->
  act = ALock /\ exists b', b' <> b /\ in_cs (w_tasks w b') = true /\
                            w_mutex w = Some (GFetch b').
Proof.
  intros Hr Halive Ht Hs Hx. pose proof (reachable_shared_inv _ Hr) as Hi.
  assert (Hwf : task_wf b (TRunning s pc)) by (rewrite <- Ht; apply Hi).
  unfold exec_event in Hx. rewrite decide_False in Hx by done. rewrite Ht, Hs in Hx.
  destruct act as [| k d | | r' |]; simpl in Hx.
  - split; [done|]. destruct (w_mutex w) as [g|] eqn:Hm; [|done].
    pose proof (si_mutex _ Hi) as Hh. rewrite Hm in Hh.
    destruct g as [b'|].
    + exists b'. assert (in_cs (w_tasks w b') = true).
      { revert Hh. unfold holders. destruct b'; repeat case_match; simplify_eq/=; done. }
      split_and!; [|done|done]. intros ->. by rewrite Ht, (in_cs_before _ _ _ Hs) in H.
    + exfalso. assert (Hp : agg_past_wait (w_agg w) = true).
      { revert Hh. unfold holders. case_bool_decide as Ha; [by rewrite Ha|].
        repeat case_match; simplify_eq/=; done. }
      destruct (quiescent_finished w b Hi Hp) as [s' Hs']. rewrite Ht in Hs'. simplify_eq.
      apply lookup_lt_Some in Hs. lia.
  - done.
  - destruct (w_mutex w) eqn:Hm; [done|].
    destruct (holders_in_cs w b Hi) as [Hm' _]; [by rewrite Ht, (in_cs_before _ _ _ Hs)|].
    congruence.
  - case_bool_decide as Hc; [done|]. destruct Hc. by eapply send_room.
  - case_bool_decide as Hc; [done|]. exfalso. apply Hc.
    rewrite (si_wg _ Hi). unfold tsum.
    pose proof (pending_dones_advance _ _ _ Hs) as Hp. rewrite <- Ht in Hp. simpl in Hp.
    destruct b; simpl in *; lia.
Qed.

(** C3. Each backend sends at most one response, and exactly one once
    its goroutine has run to the end. *)
Theorem one_response_per_backend w b :
  reachable w ->
  length (sent_by (api_name b) (w_sent w)) <= 1 /\
  (forall s, w_tasks w b = TRunning s (length s) ->
   exists r, sent_by (api_name b) (w_sent w) = [r] /\ APIName r = api_name b).
Proof.
  intros Hr. pose proof (reachable_shared_inv _ Hr) as Hi.
  rewrite (si_sent_by _ Hi b). split; [apply (done_sends_le1 b), Hi|].
  intros s Ht. rewrite Ht. simpl. rewrite firstn_all.
  pose proof (si_wf _ Hi b) as Hwf. rewrite Ht in Hwf. destruct Hwf as [(d & _ & Hshape) _].
  by apply script_shape_sends in Hshape.
Qed.

(** C9. Mutual exclusion on [timingMutex]: at most one goroutine is in a
    critical section, and it is the one the mutex records. *)
Theorem mutual_exclusion w :
  reachable w ->
  holders (w_tasks w) (w_agg w) = holder_list (w_mutex w) /\
  length (holders (w_tasks w) (w_agg w)) <= 1.
Proof.
  intros Hr. pose proof (si_mutex _ (reachable_shared_inv _ Hr)) as Hm.
  rewrite Hm. split; [done|]. by destruct (w_mutex w); simpl; lia.
Qed.

(** ** The timing map *)

Lemma stored_finished b s :
  task_wf b (TRunning s (length s)) ->
  exists r, sends s = [r] /\ APIName r = api_name b /\
    stored (TRunning s (length s)) = (if Error r is Some _ then None else Some (Duration r)).
Proof.
  intros [(d & _ & Hshape) _]. unfold stored. simpl. rewrite firstn_all.
  destruct (script_shape_facts _ _ _ Hshape) as (_ & _ & _ & r & Hs & Ha & Hd & Hst).
  exists r. split_and!; [done | done |]. rewrite Hst. destruct (Error r); simpl; congruence.
Qed.

Lemma final_map w :
  shared_inv w -> agg_past_wait (w_agg w) = true ->
  (forall b, exists r, sent_by (api_name b) (w_sent w) = [r] /\
     w_timing w !! api_name b = (if Error r is Some _ then None else Some (Duration r))) /\
  (forall k, backend_of_name k = None -> w_timing w !! k = None).
Proof.
  intros Hi Hp. split.
  - intros b. destruct (quiescent_finished w b Hi Hp) as [s Ht].
    pose proof (si_wf _ Hi b) as Hwf. rewrite Ht in Hwf.
    destruct (stored_finished b s Hwf) as (r & Hs & _ & Hst). exists r.
    rewrite (si_sent_by _ Hi b), (si_timing _ Hi), backend_of_name_api, Ht.
    split; [simpl; by rewrite firstn_all | simpl; by rewrite Ht].
  - intros k Hk. by rewrite (si_timing _ Hi), Hk.
Qed.

(** C8. Once the comparison goroutine has returned from [wg.Wait()],
    each backend has sent its one response, and the timing map holds,
    under the backend's name, the duration of that response exactly when
    it carries no error; it has no other key. *)
Theorem aggregator_reads_final_map w :
  reachable w -> agg_past_wait (w_agg w) = true ->
  (forall b, exists r, sent_by (api_name b) (w_sent w) = [r] /\
     w_timing w !! api_name b = (if Error r is Some _ then None else Some (Duration r))) /\
  (forall k, backend_of_name k = None -> w_timing w !! k = None).
Proof. intros Hr. apply final_map, reachable_shared_inv, Hr. Qed.

(** The map only has the backends' names as keys, and [time.Since]
    readings as values. *)
Lemma timing_wf w :
  shared_inv w ->
  map_Forall (fun k _ => k <> "") (w_timing w) /\
  map_Forall (fun _ d => duration_ok d) (w_timing w).
Proof.
  intros Hi. split; intros k d Hk; rewrite (si_timing _ Hi) in Hk;
    destruct (backend_of_name k) as [b|] eqn:Hb; simplify_eq/=.
  - apply backend_of_name_Some in Hb as ->. apply api_name_nonempty.
  - pose proof (si_wf _ Hi b) as Hwf. destruct (w_tasks w b) as [|s pc]; [done|].
    destruct Hwf as [(d' & Hd' & Hshape) _]. unfold stored in Hk. simpl in Hk.
    destruct Hshape; destruct pc as [|[|[|[|[|?]]]]]; simplify_eq/=; done.
Qed.

(** ** What main prints *)

(** The lines the comparison goroutine has printed so far. *)
Definition agg_printed (a : AggPC) (tm : gmap string Z) (l : list Output) : Prop :=
  match a with
  | AggNotStarted | AggWaiting => l = []
  | AggLocking | AggHolding => l = [OComparisonHeader]
  | AggFinished => exists o1 o2, iteration_order tm o1 /\ iteration_order tm o2 /\
      l = [OComparisonHeader; OComparison (compare_timings tm o1 o2)]
  end.

(** The first [select] received a response without error. *)
Definition won (w : World) : Prop :=
  exists r rest l, w_recvd w = r :: rest /\ Error r = None /\ w_agg w <> AggNotStarted /\
    agg_printed (w_agg w) (w_timing w) l /\ w_out w = OSearching (w_cep w) :: report r ++ l.

(** The output in each phase of [main]. *)
Definition main_inv (w : World) : Prop :=
  match w_main w with
  | MSelect1 => w_recvd w = [] /\ w_out w = [OSearching (w_cep w)]
  | MSelect2 | MSleep => won w
  | MExit => won w \/
      (exists r e, w_recvd w = [r] /\ Error r = Some e /\ w_agg w = AggNotStarted /\
                   w_out w = [OSearching (w_cep w); OApiError (APIName r) e]) \/
      (w_recvd w = [] /\ w_agg w = AggNotStarted /\ w_out w = [OSearching (w_cep w); OTimeout])
  end.

(** Steps of the fetch goroutines leave it alone; a store cannot happen
    once the comparison is printed. *)
Lemma main_inv_frame w w' :
  main_inv w -> w_main w' = w_main w -> w_agg w' = w_agg w -> w_out w' = w_out w ->
  w_recvd w' = w_recvd w -> w_cep w' = w_cep w ->
  (w_agg w = AggFinished -> w_timing w' = w_timing w) -> main_inv w'.
Proof.
  unfold main_inv, won. intros Hm -> -> -> -> -> Htm.
  assert (Hp : forall l, agg_printed (w_agg w) (w_timing w) l ->
                         agg_printed (w_agg w) (w_timing w') l).
  { intros l. destruct (w_agg w); simpl; try done. by rewrite Htm. }
  assert (Hw : forall r rest l, w_recvd w = r :: rest -> Error r = None ->
    w_agg w <> AggNotStarted -> agg_printed (w_agg w) (w_timing w) l ->
    w_out w = OSearching (w_cep w) :: report r ++ l ->
    exists r rest l, w_recvd w = r :: rest /\ Error r = None /\ w_agg w <> AggNotStarted /\
      agg_printed (w_agg w) (w_timing w') l /\ w_out w = OSearching (w_cep w) :: report r ++ l).
  { intros r rest l ? ? ? ?%Hp ?. by exists r, rest, l. }
  destruct (w_main w); try done.
  - destruct Hm as (r & rest & l & ? & ? & ? & ? & ?). eauto.
  - destruct Hm as (r & rest & l & ? & ? & ? & ? & ?). eauto.
  - destruct Hm as [(r & rest & l & ? & ? & ? & ? & ?) | Hm]; [left; eauto | by right].
Qed.

(** Once the comparison goroutine has started, [main] has won its first
    [select]. *)
Lemma main_inv_won w :
  shared_inv w -> main_inv w -> w_agg w <> AggNotStarted -> won w /\ w_main w <> MSelect1.
Proof.
  intros Hi Hm Ha. unfold main_inv in Hm.
  destruct (w_main w) eqn:E; try (by split).
  - by pose proof (si_agg_start _ Hi E).
  - destruct Hm as [? | [(r & e & _ & _ & ? & _) | (_ & ? & _)]]; by split.
Qed.

(** A step of the comparison goroutine extends what it has printed. *)
Lemma main_inv_agg w w' :
  shared_inv w -> main_inv w -> w_agg w <> AggNotStarted -> w_agg w' <> AggNotStarted ->
  w_main w' = w_main w -> w_recvd w' = w_recvd w -> w_cep w' = w_cep w ->
  w_timing w' = w_timing w ->
  (forall l, agg_printed (w_agg w) (w_timing w) l ->
   exists l', agg_printed (w_agg w') (w_timing w) (l ++ l') /\ w_out w' = w_out w ++ l') ->
  main_inv w'.
Proof.
  intros Hi Hm Ha Ha' Em Er Ec Et Hext.
  destruct (main_inv_won w Hi Hm Ha) as [(r & rest & l & Hr & He & _ & Hl & Ho) Hm1].
  destruct (Hext l Hl) as (l0 & Hl' & Ho').
  assert (Hwon : won w').
  { exists r, rest, (l ++ l0). rewrite Er, Et, Ec, Ho', Ho.
    split_and!; try done. simpl. by rewrite <- app_assoc. }
  unfold main_inv. rewrite Em. destruct (w_main w); try done; by left.
Qed.

Lemma main_inv_init cep : main_inv (init_world cep).
Proof. by split. Qed.

Lemma main_inv_fetch w w' b s pc act :
  shared_inv w -> main_inv w -> w_tasks w b = TRunning s pc -> s !! pc = Some act ->
  w_main w' = w_main w -> w_agg w' = w_agg w -> w_out w' = w_out w ->
  w_recvd w' = w_recvd w -> w_cep w' = w_cep w ->
  (w_timing w' = w_timing w \/ agg_past_wait (w_agg w) = false) -> main_inv w'.
Proof.
  intros Hi Hm Ht Hs Em Ea Eo Er Ec Htm. apply (main_inv_frame w); try done.
  intros Ha. destruct Htm as [? | Hp]; [done|]. by rewrite Ha in Hp.
Qed.

(** Every step preserves [main_inv]. *)
Lemma main_inv_step w w' : shared_inv w -> main_inv w -> step w w' -> main_inv w'.
Proof.
  intros Hi Hm [Halive Hs]. destruct Hs.
  - apply (main_inv_frame w); done.
  - eapply main_inv_fetch; eauto.
  - eapply main_inv_fetch; eauto. right.
    destruct (agg_past_wait (w_agg w)) eqn:Hp; [|done].
    destruct (quiescent_finished w b Hi Hp) as [s' Hs']. rewrite H in Hs'. simplify_eq.
    apply lookup_lt_Some in H0. lia.
  - eapply main_inv_fetch; eauto.
  - eapply main_inv_fetch; eauto.
  - eapply main_inv_fetch; eauto.
  - apply (main_inv_frame w); done.
  - destruct (pop_Some _ _ _ H0) as (rest & Hch & ->). unfold main_inv in *.
    rewrite H in Hm. destruct Hm as [Hr Ho]. simpl. right; left.
    exists r, e. rewrite Hr, Ho, (si_agg_start _ Hi H). unfold report. by rewrite H1.
  - destruct (pop_Some _ _ _ H0) as (rest & Hch & ->). unfold main_inv in *.
    rewrite H in Hm. destruct Hm as [Hr Ho]. simpl. exists r, [], [].
    simpl. rewrite Hr, Ho. split_and!; try done. simpl. by rewrite app_nil_r.
  - destruct (pop_Some _ _ _ H0) as (rest & Hch & ->). unfold main_inv in *.
    rewrite H in Hm. destruct Hm as (r0 & rest0 & l & Hr & ?). simpl.
    exists r0, (rest0 ++ [r]), l. simpl. by rewrite Hr.
  - unfold main_inv in *. rewrite H in Hm. destruct Hm as [Hr Ho]. simpl.
    right; right. rewrite Hr, Ho, (si_agg_start _ Hi H). done.
  - unfold main_inv in *. by rewrite H in Hm.
  - unfold main_inv in *. rewrite H in Hm. by left.
  - eapply main_inv_agg; eauto; [congruence |].
    intros l Hl. rewrite H in Hl. simpl in Hl. subst l. by exists [OComparisonHeader].
  - eapply main_inv_agg; eauto; [congruence |].
    intros l Hl. rewrite H in Hl. simpl in Hl. subst l. exists []. simpl. by rewrite app_nil_r.
  - eapply main_inv_agg; eauto; [congruence |].
    intros l Hl. rewrite H in Hl. simpl in Hl. subst l.
    exists [OComparison (compare_timings (w_timing w) o1 o2)]. split; [|done].
    by exists o1, o2.
Qed.

Lemma reachable_main_inv w : reachable w -> main_inv w.
Proof.
  intros Hr. induction Hr as [cep | w w' Hr IH Hs]; [apply main_inv_init|].
  eapply main_inv_step; [by apply reachable_shared_inv | done | done].
Qed.

(** C14. Along every schedule from the start, what [main] has printed
    matches its phase: only the search line while in the first
    [select]; the search line and the report of the first response
    received once it won, followed by what the comparison goroutine has
    printed; the search line and one error or the timeout line when it
    returned from the first [select]. *)
Theorem main_inv_run cep evs w :
  run evs (init_world cep) = Some w -> main_inv w.
Proof.
  intros Hrun. apply reachable_main_inv.
  eapply run_reachable; [constructor | exact Hrun].
Qed.

(** What [main_inv] says once a response has been received. *)
Lemma main_inv_received w r rest :
  main_inv w -> w_recvd w = r :: rest ->
  exists l, w_out w = OSearching (w_cep w) :: report r ++ l /\
    (Error r = None -> w_agg w <> AggNotStarted /\ agg_printed (w_agg w) (w_timing w) l) /\
    (forall e, Error r = Some e -> w_main w = MExit /\ l = [] /\ rest = []).
Proof.
  unfold main_inv. intros Hm Hr. destruct (w_main w) eqn:E.
  - by destruct Hm as [Hr' _]; rewrite Hr' in Hr.
  - destruct Hm as (r' & rest' & l & Hr' & He & Ha & Hl & Ho). rewrite Hr' in Hr. simplify_eq.
    exists l. split_and!; [done | done |]. intros e. congruence.
  - destruct Hm as (r' & rest' & l & Hr' & He & Ha & Hl & Ho). rewrite Hr' in Hr. simplify_eq.
    exists l. split_and!; [done | done |]. intros e. congruence.
  - destruct Hm as [(r' & rest' & l & Hr' & He & Ha & Hl & Ho)
                   | [(r' & e & Hr' & He & Ha & Ho) | (Hr' & _ & _)]];
      rewrite Hr' in Hr; simplify_eq.
    + exists l. split_and!; [done | done |]. intros e. congruence.
    + exists []. unfold report. rewrite He. split_and!; [done | congruence |].
      intros e' _. by split_and!.
Qed.

(** C4. First response wins: the response [main]'s first [select]
    receives is the first response any fetch goroutine sent, and what
    [main] prints after the search line is that response's report (its
    error, or its API name, duration and address), whatever the other
    backend does later. *)
Theorem first_response_reported w r rest :
  reachable w -> w_recvd w = r :: rest ->
  (exists later, w_sent w = r :: later) /\
  (OSearching (w_cep w) :: report r) `prefix_of` w_out w.
Proof.
  intros Hreach Hr. split.
  - exists (rest ++ w_chan w). by rewrite (si_chan _ (reachable_shared_inv _ Hreach)), Hr.
  - destruct (main_inv_received w r rest (reachable_main_inv _ Hreach) Hr) as (l & Ho & _).
    exists l. by rewrite Ho.
Qed.

(** C5. No fallback: when the first response received carries an
    error, [main] has returned after printing only that error; nothing
    else is received or printed, and no goroutine can take another step
    (the process has exited), even if the other backend would succeed. *)
Theorem error_response_is_final w r rest e :
  reachable w -> w_recvd w = r :: rest -> Error r = Some e ->
  w_main w = MExit /\ rest = [] /\
  w_out w = [OSearching (w_cep w); OApiError (APIName r) e] /\
  forall ev, exec_event ev w = None.
Proof.
  intros Hreach Hr He.
  destruct (main_inv_received w r rest (reachable_main_inv _ Hreach) Hr)
    as (l & Ho & _ & Hfin).
  destruct (Hfin e He) as (Hm & -> & ->). split_and!; [done | done | |].
  - rewrite Ho. unfold report. by rewrite He, app_nil_r.
  - intros ev. unfold exec_event. by rewrite decide_True.
Qed.

(** The lines of [report] are the winner's or the error's. *)
Lemma in_report_out cep r l x :
  x ∈ OSearching cep :: report r ++ l ->
  match x with
  | OTimeout | OComparisonHeader | OComparison _ => x ∈ l
  | _ => True
  end.
Proof.
  rewrite elem_of_cons, elem_of_app. unfold report.
  intros [-> | [Hx | Hx]]; [done | | by destruct x].
  destruct (Error r); [|destruct (address_of (Data r))];
    repeat (rewrite elem_of_cons in Hx; destruct Hx as [-> | Hx]; [done|]);
    by apply not_elem_of_nil in Hx.
Qed.

(** C10. The timeout line is printed only when [main] received nothing
    before taking [<-ctx.Done()], and then it is the last thing printed. *)
Theorem timeout_report w :
  reachable w -> OTimeout ∈ w_out w ->
  w_main w = MExit /\ w_recvd w = [] /\ w_out w = [OSearching (w_cep w); OTimeout].
Proof.
  intros Hreach Hin. pose proof (reachable_main_inv _ Hreach) as Hm.
  destruct (w_recvd w) as [|r rest] eqn:Hr.
  - unfold main_inv in Hm. rewrite Hr in Hm.
    destruct (w_main w); try (destruct Hm as (r' & rest' & l & Hr' & _); congruence).
    + destruct Hm as [_ Ho]. rewrite Ho in Hin.
      apply elem_of_cons in Hin as [? | ?%not_elem_of_nil]; done.
    + destruct Hm as [(r' & rest' & l & Hr' & _) | [(r' & e & Hr' & _) | (_ & _ & Ho)]];
        [congruence | congruence | done].
  - exfalso. destruct (main_inv_received w r rest Hm Hr) as (l & Ho & Hok & Herr).
    rewrite Ho in Hin. apply in_report_out in Hin.
    destruct (Error r) as [e|] eqn:He.
    + destruct (Herr e eq_refl) as (_ & -> & _). by apply not_elem_of_nil in Hin.
    + destruct (Hok eq_refl) as [_ Hl]. destruct (w_agg w); simpl in Hl;
        try (destruct Hl as (o1 & o2 & _ & _ & ->)); try subst l;
        repeat (rewrite elem_of_cons in Hin; destruct Hin as [Hin | Hin]; [done|]);
        by apply not_elem_of_nil in Hin.
Qed.

(** ** The comparison that is printed *)

(** A comparison is only printed by the comparison goroutine, over the
    map as it is then. *)
Lemma comparison_printed w c :
  reachable w -> OComparison c ∈ w_out w ->
  w_agg w = AggFinished /\
  exists o1 o2, iteration_order (w_timing w) o1 /\ iteration_order (w_timing w) o2 /\
    c = compare_timings (w_timing w) o1 o2.
Proof.
  intros Hreach Hin. pose proof (reachable_main_inv _ Hreach) as Hm.
  destruct (w_recvd w) as [|r rest] eqn:Hr.
  - exfalso. unfold main_inv in Hm. rewrite Hr in Hm.
    destruct (w_main w); try (destruct Hm as (r' & rest' & l & Hr' & _); congruence).
    + destruct Hm as [_ Ho]. rewrite Ho in Hin.
      apply elem_of_cons in Hin as [? | ?%not_elem_of_nil]; done.
    + destruct Hm as [(r' & rest' & l & Hr' & _) | [(r' & e & Hr' & _) | (_ & _ & Ho)]];
        [congruence | congruence |]. rewrite Ho in Hin.
      repeat (rewrite elem_of_cons in Hin; destruct Hin as [Hin | Hin]; [done|]).
      by apply not_elem_of_nil in Hin.
  - destruct (main_inv_received w r rest Hm Hr) as (l & Ho & Hok & Herr).
    rewrite Ho in Hin. apply in_report_out in Hin.
    destruct (Error r) as [e|] eqn:He.
    + destruct (Herr e eq_refl) as (_ & -> & _). by apply not_elem_of_nil in Hin.
    + destruct (Hok eq_refl) as [_ Hl].
      destruct (w_agg w) eqn:Ea; simpl in Hl;
        try (subst l; repeat (rewrite elem_of_cons in Hin; destruct Hin as [Hin | Hin]; [done|]);
             by apply not_elem_of_nil in Hin).
      destruct Hl as (o1 & o2 & Hp & Hp2 & ->). split; [done|]. exists o1, o2.
      split; [done|]. split; [done|].
      rewrite elem_of_cons, list_elem_of_singleton in Hin.
      destruct Hin as [? | Hin]; [done | by simplify_eq].
Qed.

(** A printed comparison ranged over the map that holds the duration of
    each error-free response, under its API name. *)
Lemma printed_comparison_map w c :
  reachable w -> OComparison c ∈ w_out w ->
  exists rb rv o1 o2, sent_by (api_name BrasilAPI) (w_sent w) = [rb] /\
    sent_by (api_name ViaCEPAPI) (w_sent w) = [rv] /\
    let tm := two_entries (if Error rb is Some _ then None else Some (Duration rb))
                          (if Error rv is Some _ then None else Some (Duration rv)) in
    iteration_order tm o1 /\ iteration_order tm o2 /\ c = compare_timings tm o1 o2.
Proof.
  intros Hreach Hin.
  destruct (comparison_printed w c Hreach Hin) as (Ha & o1 & o2 & Hp & Hp2 & ->).
  destruct (final_map w (reachable_shared_inv _ Hreach)) as [Hb Hk]; [by rewrite Ha|].
  destruct (Hb BrasilAPI) as (rb & Hsb & Htb). destruct (Hb ViaCEPAPI) as (rv & Hsv & Htv).
  exists rb, rv, o1, o2. split_and!; [done | done |].
  assert (Heq : w_timing w = two_entries (if Error rb is Some _ then None else Some (Duration rb))
                                         (if Error rv is Some _ then None else Some (Duration rv))).
  { rewrite (two_entries_eq (w_timing w)); [by rewrite <- Htb, <- Htv|].
    intros k Hk1 Hk2. apply Hk. unfold backend_of_name. by rewrite !decide_False. }
  cbv zeta. rewrite <- Heq. done.
Qed.

(** C6. The printed comparison reflects both fetches: when it is
    printed each backend has sent its one response, and it reports the
    minimum and the maximum of the two durations when both responses
    carry no error, and "unavailable" when either carries one. *)
Theorem comparison_reflects_fetches w c :
  reachable w -> OComparison c ∈ w_out w ->
  exists rb rv, sent_by (api_name BrasilAPI) (w_sent w) = [rb] /\
    sent_by (api_name ViaCEPAPI) (w_sent w) = [rv] /\
    match Error rb, Error rv with
    | None, None =>
        exists e l, c = Compared e l /\
          fastestTime e = Z.min (Duration rb) (Duration rv) /\
          slowestTime e = Z.max (Duration rb) (Duration rv)
    | _, _ => c = Unavailable
    end.
Proof.
  intros Hreach Hin.
  destruct (printed_comparison_map w c Hreach Hin) as (rb & rv & o1 & o2 & Hsb & Hsv & Hp & _ & ->).
  exists rb, rv. split_and!; [done | done |].
  pose proof (compare_two_entries _ _ o1 o2 Hp) as Hc.
  destruct (Error rb), (Error rv); try done.
  destruct Hc as (e & He & Hmm). exists e, o2. rewrite He. split; [done | exact Hmm].
Qed.

(** ** Termination and progress *)

(** Events left to each component: a fetch goroutine has its external
    calls and at most five actions, [main] three steps, the comparison
    goroutine three, and the deadline can fire once. *)
Definition task_measure (t : TaskState) : nat :=
  match t with TStart => 6 | TRunning s pc => length s - pc end.

Definition main_measure (m : MainPC) : nat :=
  match m with MSelect1 => 3 | MSelect2 => 2 | MSleep => 1 | MExit => 0 end.

Definition agg_measure (a : AggPC) : nat :=
  match a with
  | AggNotStarted | AggWaiting => 3 | AggLocking => 2 | AggHolding => 1 | AggFinished => 0
  end.

Definition measure (w : World) : nat :=
  tsum task_measure (w_tasks w) + main_measure (w_main w) + agg_measure (w_agg w) +
  (if w_ctx_done w then 0 else 1).

Lemma measure_fetch w b s pc w' :
  w_tasks w b = TRunning s pc -> pc < length s ->
  w_tasks w' = w_tasks (set_task b (TRunning s (S pc)) w) ->
  w_main w' = w_main w -> w_agg w' = w_agg w -> w_ctx_done w' = w_ctx_done w ->
  measure w' < measure w.
Proof.
  intros Ht Hlt Et Em Ea Ec. unfold measure. rewrite Et, Em, Ea, Ec.
  pose proof (tsum_set_task task_measure b (TRunning s (S pc)) w) as Hs.
  rewrite Ht in Hs. cbn [task_measure] in Hs. lia.
Qed.

Lemma measure_step w w' : shared_inv w -> step w w' -> measure w' < measure w.
Proof.
  intros Hi [Halive Hs]. destruct Hs;
    try (eapply measure_fetch; [done | by eapply lookup_lt_Some | done..]);
    try (destruct (pop_Some _ _ _ H0) as (? & _ & ->));
    unfold measure; cbn; try (rewrite H; cbn; lia).
  - pose proof (tsum_set_task task_measure b (TRunning (fetch b (w_cep w) o) 0) w) as Hs.
    rewrite H in Hs. cbn in Hs.
    assert (length (fetch b (w_cep w) o) <= 5) by (destruct (fetch_shape b (w_cep w) o); simpl; lia).
    lia.
  - rewrite H, (si_agg_start _ Hi H). cbn. lia.
Qed.

Lemma run_measure evs w w' :
  shared_inv w -> run evs w = Some w' -> length evs + measure w' <= measure w.
Proof.
  revert w. induction evs as [|ev evs IH]; intros w Hi Hrun; simpl in Hrun.
  - simplify_eq/=. lia.
  - destruct (exec_event ev w) as [w1|] eqn:Hx; simplify_eq/=.
    assert (Hs : step w w1) by (apply exec_event_iff; eauto).
    pose proof (measure_step w w1 Hi Hs).
    pose proof (IH w1 (shared_inv_step w w1 Hi Hs) Hrun). simpl. lia.
Qed.

(** C11. Termination: every schedule the program accepts from the start
    has at most 19 events, and together with the events still possible
    in the world it reaches ([measure]) no more than 19, so no
    interleaving runs forever. *)
Theorem schedule_length_bound cep evs w :
  run evs (init_world cep) = Some w -> length evs + measure w <= 19.
Proof.
  intros Hrun. pose proof (run_measure evs _ _ (shared_inv_init cep) Hrun) as H.
  change (measure (init_world cep)) with 19 in H. exact H.
Qed.

(** C12. The process never deadlocks: in a reachable world where [main]
    has not returned some event is enabled, so every schedule that
    cannot be extended ends with [main] returned. *)
Theorem stuck_only_when_exited w :
  reachable w -> (forall ev, exec_event ev w = None) -> w_main w = MExit.
Proof.
  intros _ Hstuck. destruct (w_main w) eqn:Em; try done; exfalso.
  - destruct (w_ctx_done w) eqn:Ec.
    + specialize (Hstuck EvMainCtxDone). unfold exec_event in Hstuck.
      rewrite decide_False, Em, Ec in Hstuck by congruence. done.
    + specialize (Hstuck EvDeadline). unfold exec_event in Hstuck.
      rewrite decide_False, Ec in Hstuck by congruence. done.
  - specialize (Hstuck EvMainAfter). unfold exec_event in Hstuck.
    rewrite decide_False, decide_True in Hstuck by congruence. done.
  - specialize (Hstuck EvMainWake). unfold exec_event in Hstuck.
    rewrite decide_False, decide_True in Hstuck by congruence. done.
Qed.

(** ** Runs of the sample schedules *)

(** C28. Round trip through the timing map: the per-API lines of a
    printed comparison read back exactly what the two fetches stored with
    [timingResults[apiName] = duration], one line per backend, each with
    the duration of its own response. *)
Theorem comparison_lists_stored w e listing :
  reachable w -> OComparison (Compared e listing) ∈ w_out w ->
  exists rb rv, sent_by (api_name BrasilAPI) (w_sent w) = [rb] /\
    sent_by (api_name ViaCEPAPI) (w_sent w) = [rv] /\ Error rb = None /\ Error rv = None /\
    listing ≡ₚ [(api_name BrasilAPI, Duration rb); (api_name ViaCEPAPI, Duration rv)].
Proof.
  intros Hreach Hin.
  destruct (printed_comparison_map w _ Hreach Hin) as (rb & rv & o1 & o2 & Hsb & Hsv & Hp & Hp2 & Hc).
  cbv zeta in Hp, Hp2, Hc. pose proof (compare_two_entries _ _ o1 o2 Hp) as Hc2.
  destruct (Error rb) eqn:Eb, (Error rv) eqn:Ev; rewrite <- Hc in Hc2;
    [discriminate Hc2 .. |].
  destruct Hc2 as (e' & He & _). injection He as _ ->.
  exists rb, rv. split_and!; [done .. |].
  unfold iteration_order in Hp2. rewrite Hp2. apply two_entries_to_list.
Qed.

(** ** Well-typed responses *)

Lemma sent_by_le a1 a2 l :
  a1 <> a2 -> length (sent_by a1 l) + length (sent_by a2 l) <= length l.
Proof.
  intros Hne. induction l as [|r l IH]; [done|]. unfold sent_by in *. simpl.
  repeat case_bool_decide; simpl; [congruence | lia ..].
Qed.

(** When the responses sent under two names account for the whole list,
    every response carries one of the two names. *)
Lemma sent_by_cover a1 a2 l :
  a1 <> a2 -> length (sent_by a1 l) + length (sent_by a2 l) = length l ->
  Forall (fun r => APIName r = a1 \/ APIName r = a2) l.
Proof.
  intros Hne. induction l as [|r l IH]; intros Hlen; [constructor|].
  pose proof (sent_by_le a1 a2 l Hne). unfold sent_by in *. simpl in Hlen.
  repeat case_bool_decide; simpl in Hlen; [congruence | | | lia]; constructor; auto with lia.
Qed.

Lemma sends_take n s r : r ∈ sends (take n s) -> r ∈ sends s.
Proof. rewrite <- (take_drop n s) at 2. rewrite sends_app, elem_of_app. auto. Qed.

(** Every value a fetch goroutine has sent is well typed. *)
Lemma sent_wf w : shared_inv w -> Forall resp_wf (w_sent w).
Proof.
  intros Hi. apply Forall_forall. intros r Hin.
  assert (Hcov : Forall (fun r => APIName r = api_name BrasilAPI \/
                                  APIName r = api_name ViaCEPAPI) (w_sent w)).
  { apply sent_by_cover; [done|]. rewrite !(si_sent_by _ Hi), (si_sent_len _ Hi). done. }
  rewrite Forall_forall in Hcov.
  assert (Hb : exists b, APIName r = api_name b)
    by (destruct (Hcov r Hin); eauto). destruct Hb as [b Hb].
  assert (Hs : r ∈ sends (done_acts (w_tasks w b))).
  { rewrite <- (si_sent_by _ Hi). unfold sent_by. apply list_elem_of_In, filter_In.
    split; [by apply list_elem_of_In | by apply bool_decide_eq_true_2]. }
  pose proof (si_wf _ Hi b) as Hwf.
  destruct (w_tasks w b) as [|s pc]; [by apply not_elem_of_nil in Hs|].
  destruct Hwf as [(d & _ & Hsh) _].
  eapply Forall_forall; [apply (script_shape_wf _ _ _ Hsh) | by eapply sends_take].
Qed.

(** The response [main] received first is well typed. *)
Lemma received_wf w r rest : reachable w -> w_recvd w = r :: rest -> resp_wf r.
Proof.
  intros Hreach Hr. pose proof (reachable_shared_inv _ Hreach) as Hi.
  eapply Forall_forall; [apply (sent_wf _ Hi)|]. rewrite (si_chan _ Hi), Hr. set_solver.
Qed.

(** C26. Type safety of [Data interface{}]: every [Response] sent on
    [resultChan] is well typed: its [Data] is [nil] exactly when its
    [Error] is not, and otherwise holds the struct of the API it names
    ([BrasilAPICEP] for "BrasilAPI", [ViaCEP] for "ViaCEP"). *)
Theorem sent_responses_typed w : reachable w -> Forall resp_wf (w_sent w).
Proof. intros Hr. apply sent_wf, reachable_shared_inv, Hr. Qed.

(** C27. On a successful first response the type switch of [main] always
    prints an address (its missing [default] case is never reached), and
    that address is read from the struct of the API [main] names as the
    fastest. *)
Theorem success_report_address w r rest :
  reachable w -> w_recvd w = r :: rest -> Error r = None ->
  data_of_api (APIName r) (Data r) /\
  exists a, address_of (Data r) = Some a /\
    [OSearching (w_cep w); OFastest (APIName r) (Duration r); OAddress a] `prefix_of` w_out w.
Proof.
  intros Hreach Hr He. pose proof (received_wf _ _ _ Hreach Hr) as Hwf.
  destruct (resp_wf_address r Hwf He) as [a Ha].
  unfold resp_wf in Hwf. rewrite He in Hwf. split; [done|]. exists a. split; [done|].
  destruct (main_inv_received w r rest (reachable_main_inv _ Hreach) Hr) as (l & Ho & _).
  exists l. rewrite Ho. unfold report. by rewrite He, Ha.
Qed.

Import Samples.

(** C7. The comparison is not guaranteed to be printed: after a
    successful first response, [main] can take [time.After(100ms)] and
    return from [time.Sleep(200ms)] while the other fetch is still
    waiting for its server, ending the process before [wg.Wait()]
    returns; the code's "give time for the timing comparison" sleep does
    not wait for it. *)
Theorem comparison_not_guaranteed :
  exists w, reachable w /\ w_main w = MExit /\
    (exists r rest, w_recvd w = r :: rest /\ Error r = None) /\
    forall c, OComparison c ∉ w_out w.
Proof.
  exists (after winner_then_exit). split_and!.
  - apply reachable_after. vm_compute; reflexivity.
  - vm_compute; reflexivity.
  - exists (resp_ok "BrasilAPI" (DataBrasil brasil_data) 120), []. split; vm_compute; reflexivity.
  - intros c Hc. vm_compute in Hc. not_list_member Hc.
Qed.

Lemma send_never_blocks_witness :
  length (w_chan (after [EvFetchCalls BrasilAPI (obs_status 404 80)])) < chan_cap.
Proof.
  apply (send_never_blocks _ BrasilAPI (fetch BrasilAPI Samples.cep (obs_status 404 80)) 0
           (resp_err "BrasilAPI" (StatusError 404) 80)).
  - apply reachable_after. vm_compute; reflexivity.
  - vm_compute; reflexivity.
  - vm_compute; reflexivity.
Defined.

Lemma fetch_progress_witness :
  ALock = ALock /\ exists b', b' <> ViaCEPAPI /\ in_cs (w_tasks (after contention) b') = true /\
                             w_mutex (after contention) = Some (GFetch b').
Proof.
  apply (fetch_progress (after contention) ViaCEPAPI
           (fetch ViaCEPAPI Samples.cep (obs_ok via_data 300)) 0 ALock).
  - apply reachable_after. vm_compute; reflexivity.
  - unfold alive. vm_compute. congruence.
  - vm_compute; reflexivity.
  - vm_compute; reflexivity.
  - vm_compute; reflexivity.
Defined.

Lemma one_response_per_backend_witness :
  length (sent_by (api_name ViaCEPAPI) (w_sent (after both_ok))) <= 1 /\
  (forall s, w_tasks (after both_ok) ViaCEPAPI = TRunning s (length s) ->
   exists r, sent_by (api_name ViaCEPAPI) (w_sent (after both_ok)) = [r] /\
             APIName r = api_name ViaCEPAPI).
Proof. apply one_response_per_backend. apply reachable_after. vm_compute; reflexivity. Defined.

Lemma first_response_reported_witness :
  (exists later, w_sent (after both_ok) =
     resp_ok "BrasilAPI" (DataBrasil brasil_data) 120 :: later) /\
  (OSearching (w_cep (after both_ok)) :: report (resp_ok "BrasilAPI" (DataBrasil brasil_data) 120))
    `prefix_of` w_out (after both_ok).
Proof.
  apply (first_response_reported _ _ [resp_ok "ViaCEP" (DataVia via_data) 300]).
  - apply reachable_after. vm_compute; reflexivity.
  - vm_compute; reflexivity.
Defined.

Lemma error_response_is_final_witness :
  w_main (after brasil_404) = MExit /\ ([] : list Response) = [] /\
  w_out (after brasil_404) =
    [OSearching (w_cep (after brasil_404));
     OApiError (APIName (resp_err "BrasilAPI" (StatusError 404) 80)) (StatusError 404)] /\
  forall ev, exec_event ev (after brasil_404) = None.
Proof.
  apply (error_response_is_final _ (resp_err "BrasilAPI" (StatusError 404) 80)).
  - apply reachable_after. vm_compute; reflexivity.
  - vm_compute; reflexivity.
  - vm_compute; reflexivity.
Defined.

Definition both_ok_comparison : Comparison :=
  Compared (mkExtremes "BrasilAPI" 120 "ViaCEP" 300)
    [("ViaCEP", 300%Z); ("BrasilAPI", 120%Z)].

Lemma comparison_reflects_fetches_witness :
  exists rb rv, sent_by (api_name BrasilAPI) (w_sent (after both_ok)) = [rb] /\
    sent_by (api_name ViaCEPAPI) (w_sent (after both_ok)) = [rv] /\
    match Error rb, Error rv with
    | None, None =>
        exists e l, both_ok_comparison = Compared e l /\
          fastestTime e = Z.min (Duration rb) (Duration rv) /\
          slowestTime e = Z.max (Duration rb) (Duration rv)
    | _, _ => both_ok_comparison = Unavailable
    end.
Proof.
  apply comparison_reflects_fetches.
  - apply reachable_after. vm_compute; reflexivity.
  - vm_compute. list_member.
Defined.

Lemma aggregator_reads_final_map_witness :
  (forall b, exists r, sent_by (api_name b) (w_sent (after both_ok)) = [r] /\
     w_timing (after both_ok) !! api_name b =
       (if Error r is Some _ then None else Some (Duration r))) /\
  (forall k, backend_of_name k = None -> w_timing (after both_ok) !! k = None).
Proof.
  apply aggregator_reads_final_map.
  - apply reachable_after. vm_compute; reflexivity.
  - vm_compute; reflexivity.
Defined.

Lemma mutual_exclusion_witness :
  holders (w_tasks (after contention)) (w_agg (after contention)) =
    holder_list (w_mutex (after contention)) /\
  length (holders (w_tasks (after contention)) (w_agg (after contention))) <= 1.
Proof. apply mutual_exclusion. apply reachable_after. vm_compute; reflexivity. Defined.

Lemma timeout_report_witness :
  w_main (after deadline_first) = MExit /\ w_recvd (after deadline_first) = [] /\
  w_out (after deadline_first) = [OSearching (w_cep (after deadline_first)); OTimeout].
Proof.
  apply timeout_report.
  - apply reachable_after. vm_compute; reflexivity.
  - vm_compute. list_member.
Defined.

Lemma schedule_length_bound_witness : length both_ok + measure (after both_ok) <= 19.
Proof. apply (schedule_length_bound Samples.cep both_ok (after both_ok)). vm_compute; reflexivity. Defined.

Lemma stuck_only_when_exited_witness : w_main (after winner_then_exit) = MExit.
Proof.
  apply stuck_only_when_exited.
  - apply reachable_after. vm_compute; reflexivity.
  - intros ev. vm_compute. reflexivity.
Defined.

Lemma main_inv_run_witness : main_inv (after both_ok).
Proof. apply (main_inv_run Samples.cep both_ok). vm_compute; reflexivity. Defined.

(** C22. A buffered response does not prevent the timeout report: when
    the deadline has passed and a response is already in [resultChan],
    both cases of the first [select] are ready and Go may take
    [<-ctx.Done()], so [main] prints the timeout line although a
    successful response was sent. *)
Theorem timeout_despite_response :
  exists w, reachable w /\ w_out w = [OSearching (w_cep w); OTimeout] /\
    exists r, w_chan w = [r] /\ Error r = None.
Proof.
  set (evs := [brasil_ok; EvFetchStep BrasilAPI; EvFetchStep BrasilAPI;
    EvFetchStep BrasilAPI; EvFetchStep BrasilAPI; EvDeadline; EvMainCtxDone]).
  exists (after evs). split; [apply reachable_after; vm_compute; reflexivity|].
  split; [vm_compute; reflexivity|].
  exists (resp_ok "BrasilAPI" (DataBrasil brasil_data) 120). split; vm_compute; reflexivity.
Qed.

Lemma sent_responses_typed_witness : Forall resp_wf (w_sent (after both_ok)).
Proof. apply sent_responses_typed, reachable_after. vm_compute; reflexivity. Defined.

Lemma success_report_address_witness :
  data_of_api "BrasilAPI" (DataBrasil brasil_data) /\
  exists a, address_of (DataBrasil brasil_data) = Some a /\
    [OSearching (w_cep (after both_ok)); OFastest "BrasilAPI" 120%Z; OAddress a]
      `prefix_of` w_out (after both_ok).
Proof.
  apply (success_report_address (after both_ok) (resp_ok "BrasilAPI" (DataBrasil brasil_data) 120)
           [resp_ok "ViaCEP" (DataVia via_data) 300]).
  - apply reachable_after. vm_compute; reflexivity.
  - vm_compute; reflexivity.
  - reflexivity.
Defined.

Lemma comparison_lists_stored_witness :
  exists rb rv, sent_by (api_name BrasilAPI) (w_sent (after both_ok)) = [rb] /\
    sent_by (api_name ViaCEPAPI) (w_sent (after both_ok)) = [rv] /\ Error rb = None /\
    Error rv = None /\
    [("ViaCEP", 300%Z); ("BrasilAPI", 120%Z)] ≡ₚ
      [(api_name BrasilAPI, Duration rb); (api_name ViaCEPAPI, Duration rv)].
Proof.
  apply (comparison_lists_stored (after both_ok) (range_extremes [("BrasilAPI", 120%Z); ("ViaCEP", 300%Z)])).
  - apply reachable_after. vm_compute; reflexivity.
  - vm_compute. list_member.
Defined.
