(* ===== verification/Simple.v ===== *)
(** * The simple variant: [src/unnamed/part_000]

    The same race as main.go without durations, WaitGroup, mutex or
    comparison: [main] starts [fetchBrasilAPI] and [fetchViaCEP] on a
    channel of capacity 2, [select]s once between the first value and
    [ctx.Done()], prints, and returns.  Each fetch goroutine runs the same
    chain of checks as in main.go and sends one [Response] (without a
    [Duration] field); it touches shared state only by that send, so its
    calls and its send are one event here.

    The file gives the variant its own data, fetch functions and
    executable semantics; the theorems show that every value sent is well
    typed, that a send never blocks, and what [main] prints.  How the
    variant relates to main.go is in [Variants.v]. *)

From S2P Require Import Prelude Types Fetch Race.
Import Brasil Via.


(** ** Data *)

(** [type Response struct { Data interface{}; APIName string; Error error }]
    (part_000 38-42). *)
Record SResponse : Type := mkSResponse {
  SData : AnyData;
  SAPIName : string;
  SError : option GoError
}.

(** The lines [main] prints (part_000 51-83). *)
Inductive SOutput : Type :=
| SOSearching (cep : string)                (* Buscando informações ... *)
| SOApiError (api : string) (e : GoError)   (* Erro na API %s: %v *)
| SOFastest (api : string)                  (* Resposta mais rápida da API: %s *)
| SOAddress (a : Address)                   (* the type switch *)
| SOTimeout.                                (* Erro: Timeout após 1 segundo *)

(** ** The fetch goroutines *)

(** What a fetch sends for the outcome [r] of its chain of checks:
    [Response{APIName, Error: err}] on the first failing check,
    [Response{APIName, Data: data}] otherwise (part_000 91-120). *)
Definition sresult {T} (apiName : string) (wrap : T -> AnyData)
    (r : result GoError T) : SResponse :=
  match r with
  | Err e => mkSResponse DataNil apiName (Some e)
  | Ok data => mkSResponse (wrap data) apiName None
  end.

(** [fetchBrasilAPI(ctx, cep, resultChan)] (part_000 87-121); the checks
    are those of main.go, [fetch_chain].  The variant does not read the
    clock, so [obs_elapsed] is unused. *)
Definition sfetchBrasilAPI (cep : string) (o : Obs BrasilAPICEP) : SResponse :=
  sresult "BrasilAPI" DataBrasil (fetch_chain (brasil_url cep) o).

(** [fetchViaCEP(ctx, cep, resultChan)] (part_000 123-156). *)
Definition sfetchViaCEP (cep : string) (o : Obs ViaCEP) : SResponse :=
  sresult "ViaCEP" DataVia (fetch_chain (via_url cep) o).

Definition sfetch (b : Backend) (cep : string) : Obs (schema b) -> SResponse :=
  match b return Obs (schema b) -> SResponse with
  | BrasilAPI => sfetchBrasilAPI cep
  | ViaCEPAPI => sfetchViaCEP cep
  end.

(** ** State *)

Inductive STask : Type :=
| SStart    (* its calls are in flight *)
| SSent.    (* it has sent its response and returned *)

Inductive SMainPC : Type :=
| SSelect   (* blocked in the select of part_000 65 *)
| SExit.    (* main has returned: the process is over *)

#[export] Instance SMainPC_eq_dec : EqDecision SMainPC.
Proof. solve_decision. Defined.

Record SWorld : Type := mkSWorld {
  s_cep : string;
  s_tasks : Backend -> STask;
  s_main : SMainPC;
  s_chan : list SResponse;     (* the buffer of resultChan *)
  s_sent : list SResponse;     (* every value sent, in order *)
  s_recvd : list SResponse;    (* every value main received *)
  s_ctx_done : bool;           (* the 1s deadline has passed *)
  s_out : list SOutput
}.

(** [make(chan Response, 2)] (part_000 58). *)
Definition schan_cap : nat := 2.

(** [resultChan <- r] by the goroutine of [b], which then returns. *)
Definition ssend (b : Backend) (r : SResponse) (w : SWorld) : SWorld :=
  mkSWorld (s_cep w) (fun b' => if decide (b' = b) then SSent else s_tasks w b')
    (s_main w) (s_chan w ++ [r]) (s_sent w ++ [r]) (s_recvd w) (s_ctx_done w) (s_out w).

(** What the [select] prints for the value it received (part_000 66-81). *)
Definition sreport (r : SResponse) : list SOutput :=
  match SError r with
  | Some e => [SOApiError (SAPIName r) e]
  | None =>
      SOFastest (SAPIName r) ::
      match address_of (SData r) with
      | Some a => [SOAddress a]
      | None => []
      end
  end.

(** ** Events *)

Inductive SEvent : Type :=
| SEvFetch (b : Backend) (o : Obs (schema b))
    (* the calls of fetch b return as observed in o, and it sends *)
| SEvDeadline       (* ctx's deadline passes *)
| SEvRecv           (* the select takes <-resultChan *)
| SEvCtxDone.       (* the select takes <-ctx.Done() *)

(** One event; [None] when it is not enabled.  Once [main] has returned
    the process is over and nothing runs. *)
Definition sexec (ev : SEvent) (w : SWorld) : option SWorld :=
  if decide (s_main w = SExit) then None else
  match ev with
  | SEvFetch b o =>
      match s_tasks w b with
      | SStart =>
          if bool_decide (length (s_chan w) < schan_cap)
          then Some (ssend b (sfetch b (s_cep w) o) w)
          else None
      | SSent => None
      end
  | SEvDeadline =>
      if s_ctx_done w then None
      else Some (mkSWorld (s_cep w) (s_tasks w) (s_main w) (s_chan w) (s_sent w)
                  (s_recvd w) true (s_out w))
  | SEvRecv =>
      match s_chan w with
      | r :: rest =>
          Some (mkSWorld (s_cep w) (s_tasks w) SExit rest (s_sent w) (s_recvd w ++ [r])
                  (s_ctx_done w) (s_out w ++ sreport r))
      | [] => None
      end
  | SEvCtxDone =>
      if s_ctx_done w
      then Some (mkSWorld (s_cep w) (s_tasks w) SExit (s_chan w) (s_sent w) (s_recvd w)
                  (s_ctx_done w) (s_out w ++ [SOTimeout]))
      else None
  end.

Fixpoint srun (evs : list SEvent) (w : SWorld) : option SWorld :=
  match evs with
  | [] => Some w
  | ev :: rest => sexec ev w ≫= srun rest
  end.

(** part_000 50-62: the world after the [go] statements. *)
Definition sinit (cep : string) : SWorld :=
  mkSWorld cep (fun _ => SStart) SSelect [] [] [] false [SOSearching cep].

(** part_000 45-50: without an argument only the usage line is printed. *)
Definition smain_start (args : list string) : option SWorld :=
  match args with
  | _ :: cep :: _ => Some (sinit cep)
  | _ => None
  end.

(** ** The invariant *)

Definition sent_num (t : STask) : nat := match t with SStart => 0 | SSent => 1 end.

(** The channel holds what was sent and not received, one value per
    goroutine that has sent; before the select returns nothing is
    received and only the search line is printed; after it, [main] has
    printed either the timeout line or the report of the one value it
    received. *)
Record sinv (w : SWorld) : Prop := {
  ss_chan : s_sent w = s_recvd w ++ s_chan w;
  ss_sent : length (s_sent w) = sent_num (s_tasks w BrasilAPI) + sent_num (s_tasks w ViaCEPAPI);
  ss_select : s_main w = SSelect -> s_recvd w = [] /\ s_out w = [SOSearching (s_cep w)];
  ss_exit : s_main w = SExit ->
    (s_recvd w = [] /\ s_out w = [SOSearching (s_cep w); SOTimeout]) \/
    (exists r, s_recvd w = [r] /\ s_out w = SOSearching (s_cep w) :: sreport r)
}.

Lemma sinv_init cep : sinv (sinit cep).
Proof. split; simpl; done. Qed.

Lemma sent_num_ssend b b' w :
  s_tasks w b = SStart ->
  sent_num (if decide (b' = b) then SSent else s_tasks w b') =
  sent_num (s_tasks w b') + (if decide (b' = b) then 1 else 0).
Proof. intros Hb. case_decide; subst; [by rewrite Hb | simpl; lia]. Qed.

Lemma sinv_sexec ev w w' : sinv w -> sexec ev w = Some w' -> sinv w'.
Proof.
  intros Hi Hx. unfold sexec in Hx. case_decide as Hm; [done|].
  assert (Hsel : s_main w = SSelect) by (destruct (s_main w); done).
  destruct (ss_select _ Hi Hsel) as [Hr Ho].
  destruct ev as [b o| | |]; repeat case_match; simplify_eq.
  - split; cbn [ssend s_sent s_recvd s_chan s_tasks s_main s_out s_cep]; try done.
    + rewrite (ss_chan _ Hi). by rewrite app_assoc.
    + rewrite !(sent_num_ssend b) by done. rewrite length_app, (ss_sent _ Hi). simpl.
      destruct b; simpl; lia.
  - destruct Hi; split; simpl; done.
  - split; simpl; try done.
    + rewrite (ss_chan _ Hi), Hr, H. done.
    + rewrite (ss_sent _ Hi). done.
    + intros _. right. exists s. by rewrite Hr, Ho.
  - split; simpl; try done; [apply Hi | apply Hi |].
    intros _. left. by rewrite Hr, Ho.
Qed.

(** A property every event preserves holds after every schedule. *)
Lemma srun_preserved (P : SWorld -> Prop) :
  (forall ev w w', P w -> sexec ev w = Some w' -> P w') ->
  forall evs w w', P w -> srun evs w = Some w' -> P w'.
Proof.
  intros Hstep evs. induction evs as [|ev evs IH]; intros w w' Hi Hrun;
    simpl in Hrun; [by simplify_eq|].
  destruct (sexec ev w) as [w1|] eqn:Hx; simplify_eq/=. eauto.
Qed.

Lemma srun_sinv evs w w' : sinv w -> srun evs w = Some w' -> sinv w'.
Proof. apply srun_preserved, sinv_sexec. Qed.

(** ** Typing of [Data interface{}] *)

(** As [resp_wf] for main.go: [Data] is [nil] exactly when [Error] is not,
    and otherwise holds the struct of the API the value names. *)
Definition sresp_wf (r : SResponse) : Prop :=
  match SError r with
  | Some _ => SData r = DataNil
  | None => data_of_api (SAPIName r) (SData r)
  end.

Lemma sresult_wf {T} api (wrap : T -> AnyData) r :
  (forall x, data_of_api api (wrap x)) -> sresp_wf (sresult api wrap r).
Proof. intros Hw. destruct r; [apply Hw | exact eq_refl]. Qed.

Lemma sfetch_wf b cep o : sresp_wf (sfetch b cep o).
Proof. destruct b; apply sresult_wf; intros; exact eq_refl. Qed.

Lemma sresp_wf_address r :
  sresp_wf r -> SError r = None -> exists a, address_of (SData r) = Some a.
Proof.
  unfold sresp_wf. intros Hwf He. rewrite He in Hwf.
  destruct (SData r); [done | eexists; reflexivity ..].
Qed.

Lemma sexec_sent_wf ev w w' :
  Forall sresp_wf (s_sent w) -> sexec ev w = Some w' -> Forall sresp_wf (s_sent w').
Proof.
  unfold sexec. intros Hf Hx. case_decide; [done|].
  destruct ev; repeat case_match; simplify_eq; simpl; try done.
  apply Forall_app. split; [done|]. constructor; [apply sfetch_wf | done].
Qed.

Lemma srun_sent_wf cep evs w :
  srun evs (sinit cep) = Some w -> Forall sresp_wf (s_sent w).
Proof.
  apply (srun_preserved (fun w => Forall sresp_wf (s_sent w)) sexec_sent_wf).
  constructor.
Qed.

Lemma srun_cep evs w w' : srun evs w = Some w' -> s_cep w' = s_cep w.
Proof.
  revert w. induction evs as [|ev evs IH]; intros w Hrun; simpl in Hrun; [by simplify_eq|].
  destruct (sexec ev w) as [w1|] eqn:Hx; simplify_eq/=. rewrite (IH _ Hrun).
  unfold sexec in Hx. case_decide; [done|]. destruct ev; repeat case_match; by simplify_eq.
Qed.

(** C24. In the simple variant too a fetch goroutine always finds room
    in the buffer of [resultChan]: no send blocks, even after [main] has
    returned. *)
Theorem simple_send_never_blocks cep evs w b :
  srun evs (sinit cep) = Some w -> s_tasks w b = SStart ->
  length (s_chan w) < schan_cap.
Proof.
  intros Hrun Hb. pose proof (srun_sinv _ _ _ (sinv_init cep) Hrun) as Hi.
  assert (Hle : length (s_chan w) <= length (s_sent w))
    by (rewrite (ss_chan _ Hi), length_app; lia).
  rewrite (ss_sent _ Hi) in Hle. unfold schan_cap.
  destruct b; rewrite Hb in Hle;
    [destruct (s_tasks w ViaCEPAPI) | destruct (s_tasks w BrasilAPI)]; simpl in Hle; lia.
Qed.

(** C25. What the simple variant prints: once [main] has returned, it
    has printed the search line and then either the timeout line, having
    received nothing, or the report of the one value it received, which
    is the first value any fetch sent, an error included (no fallback). *)
Theorem simple_outcome cep evs w :
  srun evs (sinit cep) = Some w -> s_main w = SExit ->
  (s_recvd w = [] /\ s_out w = [SOSearching cep; SOTimeout]) \/
  (exists r later, s_recvd w = [r] /\ s_sent w = r :: later /\
     s_out w = SOSearching cep :: sreport r).
Proof.
  intros Hrun He. pose proof (srun_sinv _ _ _ (sinv_init cep) Hrun) as Hi.
  assert (Hc : s_cep w = cep) by exact (srun_cep _ _ _ Hrun).
  destruct (ss_exit _ Hi He) as [[Hr Ho] | (r & Hr & Ho)]; rewrite Hc in Ho; [by left|].
  right. exists r, (s_chan w). rewrite (ss_chan _ Hi), Hr. done.
Qed.

(** ** Sample runs *)

(** BrasilAPI answers first and [main] reports it; ViaCEP is still in
    flight when the process ends. *)
Definition ssample : list SEvent :=
  [SEvFetch BrasilAPI (Samples.obs_ok Samples.brasil_data 120); SEvRecv].

(** The deadline passes first. *)
Definition stimeout : list SEvent := [SEvDeadline; SEvCtxDone].

Definition safter (evs : list SEvent) : SWorld :=
  default (sinit Samples.cep) (srun evs (sinit Samples.cep)).

Lemma simple_send_never_blocks_witness :
  length (s_chan (safter ssample)) < schan_cap.
Proof.
  apply (simple_send_never_blocks Samples.cep ssample _ ViaCEPAPI); vm_compute; reflexivity.
Defined.

Lemma simple_outcome_witness :
  (s_recvd (safter stimeout) = [] /\ s_out (safter stimeout) = [SOSearching Samples.cep; SOTimeout]) \/
  (exists r later, s_recvd (safter stimeout) = [r] /\ s_sent (safter stimeout) = r :: later /\
     s_out (safter stimeout) = SOSearching Samples.cep :: sreport r).
Proof. apply (simple_outcome Samples.cep stimeout); vm_compute; reflexivity. Defined.


