(* ===== verification/Variants.v ===== *)
(** * The two variants print the same race

    [Simple.v] models part_000 and [Race.v] main.go.  This file relates
    them through erasure: a [Response] without its [Duration], and the
    printed lines without durations and without the comparison lines.

    - Forward simulation ([match_world], [simulation_step]): every
      schedule of part_000 is matched by a schedule of main.go; a fetch
      event of part_000 is the whole run of the timing fetch up to its
      send ([fetch_to_send]), proved one action at a time over a
      [fetch_frame] so that no proof term holds a deep nest of worlds.
    - Backward simulation ([back_match], [back_step]): every step of
      main.go is matched by at most one event of part_000; the value a
      timing fetch sends is produced by the simple fetch on observations
      rebuilt from it ([obs_of]).

    Together: the two programs print the same lines, up to erasure. *)

From S2P Require Import Prelude Types Fetch Race RaceInv RaceProps Simple.

(** ** Refinement: the simple variant is the timing variant without durations *)

(** The simple [Response] is the timing one without its [Duration]. *)
Definition erase_resp (r : Response) : SResponse :=
  mkSResponse (Data r) (APIName r) (Error r).

(** The lines of the timing variant as the simple variant prints them:
    without durations, and without the comparison. *)
Definition erase_out (o : Output) : list SOutput :=
  match o with
  | OSearching c => [SOSearching c]
  | OApiError a e => [SOApiError a e]
  | OFastest a _ => [SOFastest a]
  | OAddress a => [SOAddress a]
  | OTimeout => [SOTimeout]
  | OComparisonHeader | OComparison _ => []
  end.

Definition erase_outs (l : list Output) : list SOutput := flat_map erase_out l.

(** The same calls, with a clock reading of 0ns. *)
Definition retime {T} (o : Obs T) : Obs T :=
  mkObs (obs_new_request o) (obs_do o) (obs_read_all o) (obs_unmarshal o) 0%Z.

Lemma fetch_retime b cep (o : Obs (schema b)) :
  fetch b cep (retime o) =
  task_script (api_name b) (wrap b) (fetch_chain (backend_url b cep) o) 0%Z.
Proof. by destruct b. Qed.

Lemma sfetch_unfold b cep (o : Obs (schema b)) :
  sfetch b cep o = sresult (api_name b) (wrap b) (fetch_chain (backend_url b cep) o).
Proof. by destruct b. Qed.

Lemma exec_event_calls w b (o : Obs (schema b)) :
  w_main w <> MExit -> w_tasks w b = TStart -> duration_ok (obs_elapsed o) ->
  exec_event (EvFetchCalls b o) w = Some (set_task b (TRunning (fetch b (w_cep w) o) 0) w).
Proof.
  intros Hm Ht Hd. unfold exec_event. rewrite decide_False, Ht by done.
  by rewrite bool_decide_eq_true_2.
Qed.

Lemma exec_event_step w b s pc act :
  w_main w <> MExit -> w_tasks w b = TRunning s pc -> s !! pc = Some act ->
  exec_event (EvFetchStep b) w = exec_action b act (set_task b (TRunning s (S pc)) w).
Proof. intros Hm Ht Hs. unfold exec_event. by rewrite decide_False, Ht, Hs by done. Qed.

(** What a step of the fetch of [b] leaves alone: [main], the context,
    the output, the received values and the other goroutine. *)
Record fetch_frame (b : Backend) (w w' : World) : Prop := {
  ff_cep : w_cep w' = w_cep w;
  ff_main : w_main w' = w_main w;
  ff_recvd : w_recvd w' = w_recvd w;
  ff_ctx : w_ctx_done w' = w_ctx_done w;
  ff_out : w_out w' = w_out w;
  ff_other : forall b', b' <> b -> w_tasks w' b' = w_tasks w b'
}.

Lemma fetch_frame_trans b w1 w2 w3 :
  fetch_frame b w1 w2 -> fetch_frame b w2 w3 -> fetch_frame b w1 w3.
Proof.
  intros [] []. split; try congruence.
  intros b' Hb. rewrite ff_other1, ff_other0 by done. done.
Qed.

Lemma fetch_frame_calls b t w : fetch_frame b w (set_task b t w).
Proof. split; try done. intros b' Hb. by apply set_task_other. Qed.

(** A world built from [set_task b] by setters of the shared objects. *)
Ltac frame_tac := split; try reflexivity; intros ??; by apply set_task_other.

(** The mutex after an action of the fetch of [b]. *)
Definition mutex_after (b : Backend) (act : Action) (m : option Gid) : option Gid :=
  match act with ALock => Some (GFetch b) | AUnlock => None | _ => m end.

(** A step of the fetch of [b] whose action does not block: what it
    changes. *)
Lemma fetch_step_ok w b s pc act :
  w_main w <> MExit -> w_tasks w b = TRunning s pc -> s !! pc = Some act ->
  (act = ALock -> w_mutex w = None) -> (act = AUnlock -> w_mutex w <> None) ->
  (forall r, act = ASend r -> length (w_chan w) < chan_cap) -> act <> ADone ->
  exists w', exec_event (EvFetchStep b) w = Some w' /\ fetch_frame b w w' /\
    w_tasks w' b = TRunning s (S pc) /\ w_mutex w' = mutex_after b act (w_mutex w) /\
    w_chan w' = w_chan w ++ sends [act] /\ w_sent w' = w_sent w ++ sends [act].
Proof.
  intros Hm Ht Hs Hl Hu Hc Hd. rewrite (exec_event_step _ _ s pc act) by done.
  destruct act as [| k d | | r |]; cbn [exec_action];
    [ rewrite w_mutex_set_task, Hl by done
    | idtac
    | rewrite w_mutex_set_task; destruct (w_mutex w) eqn:E; [|by destruct Hu]
    | rewrite bool_decide_eq_true_2 by (rewrite w_chan_set_task; by eapply Hc)
    | done ].
  all: eexists; split; [done|]; split_and!;
    first [frame_tac | apply set_task_same | reflexivity | cbn; by rewrite ?app_nil_r].
Qed.

(** Takes the next action [act] of the fetch of [b] in the current
    world [w], with [Hm], [Ht], [Hmu], [Hch], [Hsn] and [Hfr] describing [w]
    against the start [wt], and leaves the same facts for the next world. *)
Ltac fetch_next act :=
  match goal with
  | Hm : w_main ?w <> MExit, Ht : w_tasks ?w ?b = TRunning ?s ?pc,
    Hmu : w_mutex ?w = _, Hch : w_chan ?w = _, Hsn : w_sent ?w = _,
    Hfr : fetch_frame _ _ ?w, Hc : length (w_chan ?wt) < chan_cap |- _ =>
    let w' := fresh "w" in let E := fresh "E" in let F := fresh "F" in
    let T := fresh "Ht" in let M := fresh "Hmu" in let C := fresh "Hch" in
    let S := fresh "Hsn" in
    destruct (fetch_step_ok w b s pc act) as (w' & E & F & T & M & C & S);
    [ exact Hm | exact Ht | reflexivity
    | intros; first [discriminate | congruence]
    | intros; first [discriminate | congruence]
    | intros ??; first [discriminate | rewrite Hch; exact Hc]
    | discriminate | ];
    rewrite E; cbn [mbind option_bind];
    rewrite Hmu in M; cbn [mutex_after sends] in M, C, S; rewrite Hch in C; rewrite Hsn in S;
    rewrite ?app_nil_r in C, S;
    let Hm' := fresh "Hm" in
    assert (Hm' : w_main w' <> MExit) by (rewrite (ff_main _ _ _ F); exact Hm);
    let Hfr' := fresh "Hfr" in
    pose proof (fetch_frame_trans _ _ _ _ Hfr F) as Hfr';
    clear Hm Ht Hmu Hch Hsn Hfr F E
  end.

(** The timing fetch of [b] runs from its start to its send, through
    its critical section when it succeeds, and sends the value the
    simple fetch sends, up to [Duration]; only its [wg.Done()] is left. *)
Lemma fetch_to_send wt b (o : Obs (schema b)) :
  w_main wt <> MExit -> w_tasks wt b = TStart -> w_mutex wt = None ->
  length (w_chan wt) < chan_cap ->
  exists evs wt' r, run evs wt = Some wt' /\ erase_resp r = sfetch b (w_cep wt) o /\
    fetch_frame b wt wt' /\ w_mutex wt' = None /\
    w_chan wt' = w_chan wt ++ [r] /\ w_sent wt' = w_sent wt ++ [r].
Proof.
  intros Hm0 Ht0 Hmu0 Hc. rewrite sfetch_unfold.
  assert (Hd : duration_ok (obs_elapsed (retime o))) by (cbv; split; discriminate).
  set (s := fetch b (w_cep wt) (retime o)).
  assert (Hs : s = task_script (api_name b) (wrap b)
                     (fetch_chain (backend_url b (w_cep wt)) o) 0%Z)
    by apply fetch_retime.
  set (w0 := set_task b (TRunning s 0) wt).
  assert (E0 : exec_event (EvFetchCalls b (retime o)) wt = Some w0)
    by (by rewrite exec_event_calls).
  assert (Hm : w_main w0 <> MExit) by exact Hm0.
  assert (Ht : w_tasks w0 b = TRunning s 0) by apply set_task_same.
  assert (Hmu : w_mutex w0 = None) by exact Hmu0.
  assert (Hch : w_chan w0 = w_chan wt) by reflexivity.
  assert (Hsn : w_sent w0 = w_sent wt) by reflexivity.
  assert (Hfr : fetch_frame b wt w0) by apply fetch_frame_calls.
  clearbody w0. clear Hm0 Ht0 Hmu0.
  destruct (fetch_chain (backend_url b (w_cep wt)) o) as [data|e]; cbn [task_script] in Hs;
    clearbody s; subst s.
  - exists [EvFetchCalls b (retime o); EvFetchStep b; EvFetchStep b; EvFetchStep b;
            EvFetchStep b].
    cbn [run]. rewrite E0. cbn [mbind option_bind].
    fetch_next ALock. fetch_next (AStore (api_name b) 0%Z). fetch_next AUnlock.
    fetch_next (ASend (resp_ok (api_name b) (wrap b data) 0)).
    eexists _, _. split; [reflexivity|]. split_and!; try eassumption; reflexivity.
  - exists [EvFetchCalls b (retime o); EvFetchStep b].
    cbn [run]. rewrite E0. cbn [mbind option_bind].
    fetch_next (ASend (resp_err (api_name b) e 0)).
    eexists _, _. split; [reflexivity|]. split_and!; try eassumption; reflexivity.
Qed.

(** The simple world [ws] and the timing world [wt] agree: same CEP,
    same values sent, buffered and received (without durations), same
    deadline flag and output (without durations or comparison); a simple
    goroutine that has not sent is one that has not started; the select
    of the simple variant is the first select of main.go; and no fetch
    holds the mutex between steps. *)
Record match_world (ws : SWorld) (wt : World) : Prop := {
  mw_cep : s_cep ws = w_cep wt;
  mw_tasks : forall b, s_tasks ws b = SStart -> w_tasks wt b = TStart;
  mw_main : s_main ws = SSelect -> w_main wt = MSelect1;
  mw_chan : s_chan ws = map erase_resp (w_chan wt);
  mw_sent : s_sent ws = map erase_resp (w_sent wt);
  mw_recvd : s_recvd ws = map erase_resp (w_recvd wt);
  mw_mutex : w_mutex wt = None;
  mw_ctx : s_ctx_done ws = w_ctx_done wt;
  mw_out : s_out ws = erase_outs (w_out wt)
}.

Lemma match_world_init cep : match_world (sinit cep) (init_world cep).
Proof. split; done. Qed.

Lemma erase_outs_app l1 l2 : erase_outs (l1 ++ l2) = erase_outs l1 ++ erase_outs l2.
Proof. apply flat_map_app. Qed.

(** [main]'s report of a response, without its duration, is the simple
    variant's report of the response without [Duration]. *)
Lemma erase_report r : erase_outs (report r) = sreport (erase_resp r).
Proof.
  unfold report, sreport, erase_resp. simpl.
  destruct (Error r); [done|]. simpl. by destruct (address_of (Data r)).
Qed.

Lemma ssend_tasks b r ws b' :
  s_tasks (ssend b r ws) b' = SStart -> b' <> b /\ s_tasks ws b' = SStart.
Proof. simpl. case_decide; [done|]. by split. Qed.

(** Simulation diagram: every event of the simple variant is matched by
    a sequence of events of the timing variant. *)
Lemma simulation_step ev ws ws' wt :
  match_world ws wt -> sexec ev ws = Some ws' ->
  exists evs wt', run evs wt = Some wt' /\ match_world ws' wt'.
Proof.
  intros Hmw Hx. unfold sexec in Hx. case_decide as Hsm; [done|].
  assert (Hsel : s_main ws = SSelect) by (destruct (s_main ws); done).
  pose proof (mw_main _ _ Hmw Hsel) as Hm.
  destruct ev as [b o| | |].
  - destruct (s_tasks ws b) eqn:Hb; [|done]. case_bool_decide as Hc; [|done]. simplify_eq.
    rewrite (mw_chan _ _ Hmw), length_map in Hc.
    destruct (fetch_to_send wt b o) as (evs & wt' & r & Hrun & Hr & Hfr & Hmu & Hch & Hsn);
      [by rewrite Hm | by apply (mw_tasks _ _ Hmw) | apply Hmw | done |].
    exists evs, wt'. split; [done|].
    split; cbn [ssend s_cep s_main s_chan s_sent s_recvd s_ctx_done s_out].
    + rewrite (ff_cep _ _ _ Hfr). apply Hmw.
    + intros b' Hb'. apply ssend_tasks in Hb' as [Hne Hb'].
      rewrite (ff_other _ _ _ Hfr) by done. by apply (mw_tasks _ _ Hmw).
    + intros. rewrite (ff_main _ _ _ Hfr). by apply Hmw.
    + rewrite Hch, map_app, (mw_chan _ _ Hmw), (mw_cep _ _ Hmw). simpl. by rewrite Hr.
    + rewrite Hsn, map_app, (mw_sent _ _ Hmw), (mw_cep _ _ Hmw). simpl. by rewrite Hr.
    + rewrite (ff_recvd _ _ _ Hfr). apply Hmw.
    + done.
    + rewrite (ff_ctx _ _ _ Hfr). apply Hmw.
    + rewrite (ff_out _ _ _ Hfr). apply Hmw.
  - destruct (s_ctx_done ws) eqn:Hctx; [done|]. simplify_eq.
    exists [EvDeadline], (set_ctx_done wt). split.
    + cbn. unfold exec_event. rewrite decide_False by (rewrite Hm; done).
      by rewrite <- (mw_ctx _ _ Hmw), Hctx.
    + destruct Hmw; split; done.
  - destruct (s_chan ws) as [|r rest] eqn:Hch; [done|]. simplify_eq.
    rewrite (mw_chan _ _ Hmw) in Hch.
    destruct (w_chan wt) as [|rt restt] eqn:Hcht; [done|]. simpl in Hch. simplify_eq.
    assert (Hpop : pop wt = Some (rt, mkWorld (w_cep wt) (w_tasks wt) (w_main wt) (w_agg wt)
              restt (w_sent wt) (w_recvd wt ++ [rt]) (w_wg wt) (w_mutex wt) (w_timing wt)
              (w_ctx_done wt) (w_out wt))) by (unfold pop; by rewrite Hcht).
    exists [EvMainRecv]. cbn [run]. unfold exec_event.
    rewrite decide_False by (rewrite Hm; done). rewrite Hm, Hpop.
    destruct (Error rt); (eexists; split; [reflexivity|]); split; cbn [s_cep s_tasks s_main s_chan s_sent s_recvd s_ctx_done s_out w_cep w_tasks
      w_main w_chan w_sent w_recvd w_mutex w_ctx_done w_out set_main set_agg print]; try apply Hmw;
      try done.
    all: rewrite ?erase_outs_app, <- ?erase_report, ?map_app, ?(mw_recvd _ _ Hmw),
      ?(mw_out _ _ Hmw); done.
  - destruct (s_ctx_done ws) eqn:Hctx; [|done]. simplify_eq.
    exists [EvMainCtxDone]. cbn [run]. unfold exec_event.
    rewrite decide_False by (rewrite Hm; done). rewrite Hm, <- (mw_ctx _ _ Hmw), Hctx.
    eexists; split; [reflexivity|]. split; cbn [s_cep s_tasks s_main s_chan s_sent s_recvd s_ctx_done s_out w_cep w_tasks
      w_main w_chan w_sent w_recvd w_mutex w_ctx_done w_out set_main set_agg print]; try apply Hmw; try done.
    + by rewrite <- (mw_ctx _ _ Hmw), Hctx.
    + by rewrite erase_outs_app, (mw_out _ _ Hmw).
Qed.

Lemma simulation_srun evs ws ws' wt :
  match_world ws wt -> srun evs ws = Some ws' ->
  exists evs' wt', run evs' wt = Some wt' /\ match_world ws' wt'.
Proof.
  revert ws wt. induction evs as [|ev evs IH]; intros ws wt Hmw Hrun; simpl in Hrun.
  - simplify_eq. by exists [], wt.
  - destruct (sexec ev ws) as [ws1|] eqn:Hx; simplify_eq/=.
    destruct (simulation_step _ _ _ _ Hmw Hx) as (evs1 & wt1 & Hrun1 & Hmw1).
    destruct (IH _ _ Hmw1 Hrun) as (evs2 & wt2 & Hrun2 & Hmw2).
    exists (evs1 ++ evs2), wt2. by rewrite run_app, Hrun1.
Qed.

(** C23. Refinement: every behaviour of the simple variant is a
    behaviour of the timing variant with durations erased.  For every
    schedule of part_000 there is a schedule of main.go from the same
    CEP that sends, receives and prints the same values, up to the
    [Duration] field and the comparison lines. *)
Theorem simple_refines_timing cep sevs ws :
  srun sevs (sinit cep) = Some ws ->
  exists evs wt, run evs (init_world cep) = Some wt /\
    s_out ws = erase_outs (w_out wt) /\ s_sent ws = map erase_resp (w_sent wt) /\
    s_recvd ws = map erase_resp (w_recvd wt).
Proof.
  intros Hrun.
  destruct (simulation_srun _ _ _ _ (match_world_init cep) Hrun) as (evs & wt & Hr & Hmw).
  exists evs, wt. split_and!; [done | apply Hmw ..].
Qed.

(** ** Backward simulation: what main.go prints, part_000 prints *)

(** Observations under which the chain of checks returns [r]. *)
Definition obs_of {T} (r : result GoError T) : Obs T :=
  match r with
  | Ok data =>
      mkObs (fun _ => Ok tt) (fun _ => Ok StatusOK) (Ok []) (fun _ => Ok data) 0%Z
  | Err (LibError CallNewRequest m) =>
      mkObs (fun _ => Err m) (fun _ => Ok StatusOK) (Ok []) (fun _ => Err m) 0%Z
  | Err (LibError CallDo m) =>
      mkObs (fun _ => Ok tt) (fun _ => Err m) (Ok []) (fun _ => Err m) 0%Z
  | Err (StatusError c) =>
      mkObs (fun _ => Ok tt) (fun _ => Ok c) (Ok []) (fun _ => Err "") 0%Z
  | Err (LibError CallReadAll m) =>
      mkObs (fun _ => Ok tt) (fun _ => Ok StatusOK) (Err m) (fun _ => Err m) 0%Z
  | Err (LibError CallUnmarshal m) =>
      mkObs (fun _ => Ok tt) (fun _ => Ok StatusOK) (Ok []) (fun _ => Err m) 0%Z
  end.

(** Every outcome the chain can have is produced by some observations. *)
Lemma fetch_chain_obs_of {T} url (r : result GoError T) :
  (forall e, r = Err e -> chain_error e) -> fetch_chain url (obs_of r) = r.
Proof.
  intros He. destruct r as [data|[[] m|c]]; try reflexivity.
  specialize (He _ eq_refl). simpl in He. unfold fetch_chain. simpl.
  by destruct (Z.eqb_spec c StatusOK).
Qed.

Lemma data_of_api_wrap b d : data_of_api (api_name b) d -> exists x : schema b, d = wrap b x.
Proof. destruct b, d; simpl; intros H; try discriminate; try done; eauto. Qed.

(** The value a timing fetch sends is, without its [Duration], the value
    the simple fetch of the same backend sends under some observations. *)
Lemma sfetch_realises b cep d s pc r :
  script_shape (api_name b) d s -> s !! pc = Some (ASend r) ->
  exists o : Obs (schema b), sfetch b cep o = erase_resp r.
Proof.
  intros [e He | data Hd] Hs; destruct pc as [|[|[|[|[|?]]]]]; simplify_eq/=.
  - exists (obs_of (Err e)). rewrite sfetch_unfold, fetch_chain_obs_of; [done|].
    by intros ? [= <-].
  - destruct (data_of_api_wrap _ _ Hd) as [x ->]. exists (obs_of (Ok x)).
    rewrite sfetch_unfold, fetch_chain_obs_of; [done | by intros].
Qed.

(** Whether a fetch goroutine has sent, as part_000 records it. *)
Definition sent_state (t : TaskState) : STask :=
  match sends (done_acts t) with [] => SStart | _ :: _ => SSent end.

Lemma sent_state_advance b s pc act :
  task_wf b (TRunning s pc) -> s !! pc = Some act -> (forall r, act <> ASend r) ->
  sent_state (TRunning s (S pc)) = sent_state (TRunning s pc).
Proof.
  intros Hwf Hs Hn. unfold sent_state. rewrite (sends_done_advance s pc act Hs).
  destruct act; try by rewrite app_nil_r. by destruct (Hn r).
Qed.

(** The timing world [wt] and the simple world [ws] print the same lines
    up to erasure; while main.go is in its first [select], so is
    part_000, with the same buffer, deadline flag and goroutines that
    have sent; once main.go has left it, part_000 has returned. *)
Record back_match (wt : World) (ws : SWorld) : Prop := {
  bm_cep : s_cep ws = w_cep wt;
  bm_out : s_out ws = erase_outs (w_out wt);
  bm_select : w_main wt = MSelect1 ->
    s_main ws = SSelect /\ s_chan ws = map erase_resp (w_chan wt) /\
    s_ctx_done ws = w_ctx_done wt /\ forall b, s_tasks ws b = sent_state (w_tasks wt b);
  bm_exit : w_main wt <> MSelect1 -> s_main ws = SExit
}.

Lemma back_match_init cep : back_match (init_world cep) (sinit cep).
Proof. split; done. Qed.

(** A step of main.go that part_000 matches by no event. *)
Lemma back_quiet wt wt' ws :
  back_match wt ws -> w_cep wt' = w_cep wt ->
  erase_outs (w_out wt') = erase_outs (w_out wt) ->
  (w_main wt = MSelect1 -> w_main wt' = MSelect1 /\ w_chan wt' = w_chan wt /\
     w_ctx_done wt' = w_ctx_done wt /\
     forall b, sent_state (w_tasks wt' b) = sent_state (w_tasks wt b)) ->
  (w_main wt <> MSelect1 -> w_main wt' <> MSelect1) ->
  exists sevs ws', srun sevs ws = Some ws' /\ back_match wt' ws'.
Proof.
  intros [Hc Ho Hsel Hex] Hc' Ho' Hm1 Hm2. exists [], ws. split; [done|].
  split; [congruence | congruence | |].
  - intros Hm'. destruct (decide (w_main wt = MSelect1)) as [Hm|Hm]; [|by destruct (Hm2 Hm)].
    destruct (Hm1 Hm) as (_ & Hch & Hctx & Ht). destruct (Hsel Hm) as (? & ? & ? & Htk).
    split_and!; [done | congruence | congruence |]. intros b. by rewrite Htk, Ht.
  - intros Hm'. destruct (decide (w_main wt = MSelect1)) as [Hm|Hm]; [|by apply Hex].
    by destruct (Hm1 Hm) as [? _].
Qed.

Lemma w_chan_push r w : w_chan (push r w) = w_chan w ++ [r].
Proof. reflexivity. Qed.
Lemma w_tasks_push r w : w_tasks (push r w) = w_tasks w.
Proof. reflexivity. Qed.

(** Apply [back_quiet] to the [back_match] in context. *)
Ltac bq Hb := apply (back_quiet _ _ _ Hb).

(** A step of a fetch goroutine that neither sends nor touches what
    [main] prints: part_000 does nothing. *)
Ltac back_fetch_quiet Hi Hb :=
  bq Hb; [done | done | | done];
  intros ?; split_and!; try done; intros b';
  cbn [set_mutex set_timing set_wg set_task w_tasks]; case_decide; [subst b' | done];
  match goal with
  | Ht : w_tasks _ ?b = TRunning ?s ?pc, Hs : ?s !! ?pc = Some _ |- _ =>
      rewrite Ht; apply (sent_state_advance b _ _ _ (eq_ind _ (task_wf b) (si_wf _ Hi b) _ Ht) Hs);
      intros ? ?; discriminate
  end.

(** A step of the comparison goroutine: [main] has left its first
    [select], and the lines printed are erased. *)
Ltac back_agg_quiet Hi Hb :=
  bq Hb; [done | | | done];
  [ cbn [set_agg set_mutex print w_out]; rewrite ?erase_outs_app; simpl; by rewrite ?app_nil_r
  | intros Hm1; exfalso; pose proof (si_agg_start _ Hi Hm1); congruence ].

(** Simulation diagram, backwards: each step of main.go is matched by at
    most one event of part_000. *)
Lemma back_step wt wt' ws :
  shared_inv wt -> step wt wt' -> back_match wt ws ->
  exists sevs ws', srun sevs ws = Some ws' /\ back_match wt' ws'.
Proof.
  intros Hi [Halive Hs] Hb.
  destruct Hs as [b o Ht Hd | b s pc Ht Hs Hmu | b s pc k d Ht Hs | b s pc g Ht Hs Hmu
                 | b s pc r Ht Hs Hc | b s pc Ht Hs Hg | Hctx | r w1 e Hm Hp He
                 | r w1 Hm Hp He | r w1 Hm Hp | Hm Hctx | Hm | Hm | Ha Hw | Ha Hmu
                 | o1 o2 g Ha Ho1 Ho2 Hmu].
  - bq Hb; [done | done | | done].
    intros ?; split_and!; try done; intros b'. cbn [set_task w_tasks].
    case_decide; [subst b'; by rewrite Ht | done].
  - back_fetch_quiet Hi Hb.
  - back_fetch_quiet Hi Hb.
  - back_fetch_quiet Hi Hb.
  - destruct (decide (w_main wt = MSelect1)) as [Hm1|Hm1];
      [|bq Hb; [done | done | by intros | done]].
    destruct (bm_select _ _ Hb Hm1) as (Hsm & Hsc & Hsx & Hst).
    assert (Hwf : task_wf b (TRunning s pc)) by (rewrite <- Ht; apply Hi).
    pose proof Hwf as [(d & _ & Hsh) _].
    pose proof (done_sends_before_send b s pc r Hwf Hs) as Hnone.
    destruct (sfetch_realises b (s_cep ws) d s pc r Hsh Hs) as [o Ho].
    exists [SEvFetch b o]. eexists. split.
    + cbn [srun]. unfold sexec. rewrite decide_False by (rewrite Hsm; done). rewrite Hst.
      unfold sent_state. rewrite Ht, Hnone.
      rewrite bool_decide_eq_true_2 by (rewrite Hsc, length_map; exact Hc). reflexivity.
    + split; [exact (bm_cep _ _ Hb) | exact (bm_out _ _ Hb) | | by intros []].
      intros _. cbn [ssend s_main s_chan s_ctx_done s_tasks].
      split_and!; [done | by rewrite w_chan_push, w_chan_set_task, map_app, Hsc, Ho | done |].
      intros b'. case_decide; [subst b'|].
      * rewrite w_tasks_push, set_task_same. unfold sent_state.
        by rewrite (sends_done_advance s pc (ASend r) Hs), Hnone.
      * rewrite w_tasks_push, set_task_other by done. apply Hst.
  - back_fetch_quiet Hi Hb.
  - destruct (decide (w_main wt = MSelect1)) as [Hm1|Hm1];
      [|bq Hb; [done | done | by intros | done]].
    destruct (bm_select _ _ Hb Hm1) as (Hsm & Hsc & Hsx & Hst).
    exists [SEvDeadline]. eexists. split.
    + cbn [srun]. unfold sexec. rewrite decide_False by (rewrite Hsm; done).
      rewrite Hsx, Hctx. reflexivity.
    + split; [exact (bm_cep _ _ Hb) | exact (bm_out _ _ Hb) | | by intros []].
      intros _. cbn [s_main s_chan s_ctx_done s_tasks]. split_and!; done.
  - destruct (bm_select _ _ Hb Hm) as (Hsm & Hsc & Hsx & Hst).
    destruct (pop_Some _ _ _ Hp) as (rest & Hch & ->). rewrite Hch in Hsc.
    exists [SEvRecv]. eexists. split.
    + cbn [srun]. unfold sexec. rewrite decide_False by (rewrite Hsm; done).
      rewrite Hsc. reflexivity.
    + split; [exact (bm_cep _ _ Hb) | | done | done].
      cbn [s_out set_main print w_out]. by rewrite erase_outs_app, erase_report, (bm_out _ _ Hb).
  - destruct (bm_select _ _ Hb Hm) as (Hsm & Hsc & Hsx & Hst).
    destruct (pop_Some _ _ _ Hp) as (rest & Hch & ->). rewrite Hch in Hsc.
    exists [SEvRecv]. eexists. split.
    + cbn [srun]. unfold sexec. rewrite decide_False by (rewrite Hsm; done).
      rewrite Hsc. reflexivity.
    + split; [exact (bm_cep _ _ Hb) | | done | done].
      cbn [s_out set_main set_agg print w_out].
      by rewrite erase_outs_app, erase_report, (bm_out _ _ Hb).
  - destruct (pop_Some _ _ _ Hp) as (rest & Hch & ->).
    bq Hb; [done | done | by rewrite Hm | done].
  - destruct (bm_select _ _ Hb Hm) as (Hsm & Hsc & Hsx & Hst).
    exists [SEvCtxDone]. eexists. split.
    + cbn [srun]. unfold sexec. rewrite decide_False by (rewrite Hsm; done).
      rewrite Hsx, Hctx. reflexivity.
    + split; [exact (bm_cep _ _ Hb) | | done | done].
      cbn [s_out set_main print w_out]. by rewrite erase_outs_app, (bm_out _ _ Hb).
  - bq Hb; [done | done | by rewrite Hm | done].
  - bq Hb; [done | done | by rewrite Hm | done].
  - back_agg_quiet Hi Hb.
  - back_agg_quiet Hi Hb.
  - back_agg_quiet Hi Hb.
Qed.

Lemma srun_app evs1 evs2 w : srun (evs1 ++ evs2) w = srun evs1 w ≫= srun evs2.
Proof.
  revert w. induction evs1 as [|ev evs1 IH]; intros w; simpl; [done|].
  destruct (sexec ev w); simpl; [apply IH | done].
Qed.

Lemma back_run evs wt wt' ws :
  shared_inv wt -> back_match wt ws -> run evs wt = Some wt' ->
  exists sevs ws', srun sevs ws = Some ws' /\ back_match wt' ws'.
Proof.
  revert wt ws. induction evs as [|ev evs IH]; intros wt ws Hi Hb Hrun; simpl in Hrun.
  - simplify_eq. by exists [], ws.
  - destruct (exec_event ev wt) as [wt1|] eqn:Hx; simplify_eq/=.
    assert (Hs : step wt wt1) by (apply exec_event_iff; eauto).
    destruct (back_step _ _ _ Hi Hs Hb) as (sevs1 & ws1 & Hr1 & Hb1).
    destruct (IH _ _ (shared_inv_step _ _ Hi Hs) Hb1 Hrun) as (sevs2 & ws2 & Hr2 & Hb2).
    exists (sevs1 ++ sevs2), ws2. by rewrite srun_app, Hr1.
Qed.

(** C29. The two variants print alike: for every CEP, the outputs of
    part_000 are exactly the outputs of main.go with the durations and
    the comparison lines removed.  A line sequence is printed by some
    schedule of one program iff it is printed, up to erasure, by some
    schedule of the other. *)
Theorem variants_print_alike cep out :
  (exists sevs ws, srun sevs (sinit cep) = Some ws /\ s_out ws = out) <->
  (exists evs wt, run evs (init_world cep) = Some wt /\ erase_outs (w_out wt) = out).
Proof.
  split.
  - intros (sevs & ws & Hr & <-).
    destruct (simulation_srun _ _ _ _ (match_world_init cep) Hr) as (evs & wt & Hr' & Hmw).
    exists evs, wt. split; [done|]. symmetry. apply Hmw.
  - intros (evs & wt & Hr & <-).
    destruct (back_run evs _ _ _ (shared_inv_init cep) (back_match_init cep) Hr)
      as (sevs & ws & Hr' & Hb).
    exists sevs, ws. split; [done | apply Hb].
Qed.

(** ** Sample runs *)

Lemma simple_refines_timing_witness :
  exists evs wt, run evs (init_world Samples.cep) = Some wt /\
    s_out (safter ssample) = erase_outs (w_out wt) /\
    s_sent (safter ssample) = map erase_resp (w_sent wt) /\
    s_recvd (safter ssample) = map erase_resp (w_recvd wt).
Proof. apply (simple_refines_timing Samples.cep ssample). vm_compute; reflexivity. Defined.
