(* ===== verification/Render.v ===== *)
(** * The console output: the bytes each [fmt] call of main.go and of
    [src/unnamed/part_000] writes to stdout

    The other files record what the programs print as values ([Output],
    [SOutput]); this file renders each of them as the text its [fmt.Printf]
    or [fmt.Println] writes, byte for byte (Go strings are UTF-8 bytes, and
    so are the literals here).  A duration is printed with [%.3f] of
    [time.Duration.Seconds()], which is IEEE-754 double arithmetic: it is
    modelled with Rocq's primitive 64-bit floats ([PrimFloat]), and [%.3f]
    by the exact decimal rounding Go's [strconv] performs on the binary
    value (round half to even on exact ties, as [decimal.Round] does).

    The theorems give the whole text [main] prints in every run that has
    exited, for main.go ([exit_console] against [exit_stdout]) and for
    part_000 ([simple_exit_console] against [sexit_stdout]); they show
    that whole-millisecond durations print exactly, and that the printed
    difference of the comparison is a difference of rounded floats and
    not the rounded difference of the durations. *)

From Stdlib Require Import Ascii PrimFloat FloatOps Uint63 SpecFloat.
From stdpp Require Import pretty.
From S2P Require Import Prelude Types Fetch Timing Race RaceInv RaceProps Simple.
Import Brasil Via.

(** ** Strings *)

(** The line feed ending every printed line ([\n] of the format strings,
    and the one [fmt.Println] appends). *)
Definition nl : string := String "010"%char EmptyString.

(** ** Durations as seconds *)

(** [time.Second] in nanoseconds. *)
Definition Second : Z := 1000000000.

(** Go's conversion [float64(x)] of an [int64]: the nearest double (exact
    below 2^53, which covers both conversions of [Seconds] below). *)
Definition float_of_int64 (z : Z) : float :=
  if (z <? 0)%Z then PrimFloat.opp (PrimFloat.of_uint63 (Uint63.of_Z (- z)))
  else PrimFloat.of_uint63 (Uint63.of_Z z).

(** [func (d Duration) Seconds() float64]:
    [sec := d / Second; nsec := d % Second;
     return float64(sec) + float64(nsec)/1e9]; Go's [/] and [%] on
    integers truncate toward zero. *)
Definition seconds (d : Z) : float :=
  PrimFloat.add (float_of_int64 (Z.quot d Second))
                (PrimFloat.div (float_of_int64 (Z.rem d Second)) 1e9%float).

(** ** [%.3f] *)

(** [n / d] rounded to the nearest integer, ties to even ([d > 0]). *)
Definition round_half_even_div (n d : Z) : Z :=
  let q := (n / d)%Z in
  let r := (n mod d)%Z in
  match Z.compare (2 * r) d with
  | Lt => q
  | Gt => q + 1
  | Eq => if Z.even q then q else q + 1
  end.

(** The three digits after the point, with their leading zeros. *)
Definition pad3 (n : Z) : string :=
  if (n <? 10)%Z then "00" +:+ pretty n
  else if (n <? 100)%Z then "0" +:+ pretty n
  else pretty n.

(** A value of [k] thousandths, with its sign. *)
Definition fixed3 (neg : bool) (k : Z) : string :=
  (if neg then "-" else "") +:+ pretty (k / 1000)%Z +:+ "." +:+ pad3 (k mod 1000)%Z.

(** [fmt]'s [%.3f] of a [float64]: [strconv.AppendFloat(f, 'f', 3, 64)]
    rounds the exact binary value [m * 2^e] to thousandths; [fmt] keeps
    the sign of [Inf] and drops it for [NaN]. *)
Definition format_f3 (f : float) : string :=
  match Prim2SF f with
  | S754_zero s => fixed3 s 0
  | S754_infinity s => if s then "-Inf" else "+Inf"
  | S754_nan => "NaN"
  | S754_finite s m e =>
      let n := (Zpos m * 1000)%Z in
      fixed3 s (if (0 <=? e)%Z then n * 2 ^ e else round_half_even_div n (2 ^ (- e)))%Z
  end.

(** ** The lines of main.go *)

(** [%v] of an [error]: its [Error()] text; the status error is
    [fmt.Errorf("status code: %d", resp.StatusCode)] (main.go 167, 214). *)
Definition render_error (e : GoError) : string :=
  match e with
  | LibError _ msg => msg
  | StatusError code => "status code: " +:+ pretty code
  end.

(** main.go 48. *)
Definition usage_line : string :=
  "Por favor, forneça um CEP como argumento. Exemplo: go run main.go 01153000" +:+ nl.

(** The [Printf] of both cases of the type switch (main.go 86-90),
    which part_000 repeats (76-80). *)
Definition address_lines (a : Address) : string :=
  "CEP: " +:+ addr_cep a +:+ nl +:+ "Estado: " +:+ addr_estado a +:+ nl +:+
  "Cidade: " +:+ addr_cidade a +:+ nl +:+ "Bairro: " +:+ addr_bairro a +:+ nl +:+
  "Rua: " +:+ addr_rua a +:+ nl.

(** main.go 126: [slowestTime.Seconds()-fastestTime.Seconds()], a float
    subtraction. *)
Definition difference_line (fastestTime slowestTime : Z) : string :=
  "Diferença: " +:+ format_f3 (PrimFloat.sub (seconds slowestTime) (seconds fastestTime))
    +:+ "s" +:+ nl.

(** main.go 128-130, one line per entry in the order of the second
    [range]. *)
Definition render_listing (listing : list (string * Z)) : string :=
  foldr (fun '(api, d) s => api +:+ ": " +:+ format_f3 (seconds d) +:+ "s" +:+ nl +:+ s)
    "" listing.

(** main.go 124-132. *)
Definition render_comparison (c : Comparison) : string :=
  match c with
  | Unavailable =>
      "Não foi possível obter resposta de ambas as APIs para comparação." +:+ nl
  | Compared e listing =>
      "API mais rápida: " +:+ fastest e +:+ " (" +:+ format_f3 (seconds (fastestTime e))
        +:+ "s)" +:+ nl +:+
      "API mais lenta: " +:+ slowest e +:+ " (" +:+ format_f3 (seconds (slowestTime e))
        +:+ "s)" +:+ nl +:+
      difference_line (fastestTime e) (slowestTime e) +:+
      render_listing listing
  end.

(** The text of each [fmt] call of main.go (53, 78, 82, 86-90, 93, 102,
    124-132). *)
Definition render_output (o : Output) : string :=
  match o with
  | OSearching cep => "Buscando informações para o CEP: " +:+ cep +:+ nl
  | OApiError api e => "Erro na API " +:+ api +:+ ": " +:+ render_error e +:+ nl
  | OFastest api d =>
      "Resposta mais rápida da API: " +:+ api +:+ " (" +:+ format_f3 (seconds d) +:+ "s)"
        +:+ nl +:+ nl
  | OAddress a => address_lines a
  | OTimeout => "Erro: Timeout após 1 segundo" +:+ nl
  | OComparisonHeader => nl +:+ "=== Comparativo de Tempo de Resposta ===" +:+ nl
  | OComparison c => render_comparison c
  end.

(** stdout: the outputs in the order they were printed, each rendered. *)
Definition text_of {O} (render : O -> string) (out : list O) : string :=
  foldr (fun o s => render o +:+ s) "" out.

Definition console (w : World) : string := text_of render_output (w_out w).

(** What main.go writes for its command line: the usage line, or the text
    of the world it has reached. *)
Definition launch_console (l : Launch) : string :=
  match l with
  | Usage => usage_line
  | Launched w => console w
  end.

(** ** The lines of part_000 *)

(** The text of each [fmt] call of the simple variant (part_000 51, 68,
    72, 76-80, 83): the same lines, but the fastest API is printed
    without its duration. *)
Definition render_soutput (o : SOutput) : string :=
  match o with
  | SOSearching cep => "Buscando informações para o CEP: " +:+ cep +:+ nl
  | SOApiError api e => "Erro na API " +:+ api +:+ ": " +:+ render_error e +:+ nl
  | SOFastest api => "Resposta mais rápida da API: " +:+ api +:+ nl +:+ nl
  | SOAddress a => address_lines a
  | SOTimeout => "Erro: Timeout após 1 segundo" +:+ nl
  end.

Definition sconsole (w : SWorld) : string := text_of render_soutput (s_out w).

(** ** What main.go prints when it has returned

    The text of a finished run, written out from the format strings of
    main.go: the search line and then the timeout line (93), the error
    line of the first response (78), or the success block (82, 86-90)
    followed by as much of the comparison goroutine's output (102,
    124-132) as it printed before the process exited. *)

Definition comparison_header : string :=
  nl +:+ "=== Comparativo de Tempo de Resposta ===" +:+ nl.

Inductive comparison_tail (tm : gmap string Z) : string -> Prop :=
| TailNone : comparison_tail tm ""
| TailHeader : comparison_tail tm comparison_header
| TailCompared o1 o2 :
    iteration_order tm o1 -> iteration_order tm o2 ->
    comparison_tail tm (comparison_header +:+ render_comparison (compare_timings tm o1 o2)).

Inductive exit_stdout (w : World) : string -> Prop :=
| ExitTimeout :
    w_recvd w = [] ->
    exit_stdout w ("Buscando informações para o CEP: " +:+ w_cep w +:+ nl +:+
                   "Erro: Timeout após 1 segundo" +:+ nl)
| ExitApiError r e :
    w_recvd w = [r] -> Error r = Some e ->
    exit_stdout w ("Buscando informações para o CEP: " +:+ w_cep w +:+ nl +:+
                   "Erro na API " +:+ APIName r +:+ ": " +:+ render_error e +:+ nl)
| ExitSuccess r rest a tail :
    w_recvd w = r :: rest -> Error r = None -> address_of (Data r) = Some a ->
    comparison_tail (w_timing w) tail ->
    exit_stdout w ("Buscando informações para o CEP: " +:+ w_cep w +:+ nl +:+
                   "Resposta mais rápida da API: " +:+ APIName r +:+ " (" +:+
                   format_f3 (seconds (Duration r)) +:+ "s)" +:+ nl +:+ nl +:+
                   "CEP: " +:+ addr_cep a +:+ nl +:+ "Estado: " +:+ addr_estado a +:+ nl +:+
                   "Cidade: " +:+ addr_cidade a +:+ nl +:+
                   "Bairro: " +:+ addr_bairro a +:+ nl +:+
                   "Rua: " +:+ addr_rua a +:+ nl +:+ tail).

(** The text of part_000 once its [main] has returned: the search line
    (51) and then the timeout line (83), the error line of the received
    value (68), or its success block (72, 76-80), without a duration. *)
Inductive sexit_stdout (w : SWorld) : string -> Prop :=
| SExitTimeout :
    s_recvd w = [] ->
    sexit_stdout w ("Buscando informações para o CEP: " +:+ s_cep w +:+ nl +:+
                    "Erro: Timeout após 1 segundo" +:+ nl)
| SExitApiError r e :
    s_recvd w = [r] -> SError r = Some e ->
    sexit_stdout w ("Buscando informações para o CEP: " +:+ s_cep w +:+ nl +:+
                    "Erro na API " +:+ SAPIName r +:+ ": " +:+ render_error e +:+ nl)
| SExitSuccess r a :
    s_recvd w = [r] -> SError r = None -> address_of (SData r) = Some a ->
    sexit_stdout w ("Buscando informações para o CEP: " +:+ s_cep w +:+ nl +:+
                    "Resposta mais rápida da API: " +:+ SAPIName r +:+ nl +:+ nl +:+
                    "CEP: " +:+ addr_cep a +:+ nl +:+ "Estado: " +:+ addr_estado a +:+ nl +:+
                    "Cidade: " +:+ addr_cidade a +:+ nl +:+
                    "Bairro: " +:+ addr_bairro a +:+ nl +:+
                    "Rua: " +:+ addr_rua a +:+ nl).

(** ** Lemmas *)

Lemma text_of_app {O} (render : O -> string) l1 l2 :
  text_of render (l1 ++ l2) = text_of render l1 +:+ text_of render l2.
Proof.
  induction l1 as [|o l1 IH]; [done|]. simpl. by rewrite IH, string_app_assoc_r.
Qed.

Lemma text_of_cons {O} (render : O -> string) o l :
  text_of render (o :: l) = render o +:+ text_of render l.
Proof. reflexivity. Qed.

Lemma text_of_nil {O} (render : O -> string) : text_of render [] = "".
Proof. reflexivity. Qed.

#[export] Hint Rewrite @text_of_app @text_of_cons @text_of_nil : string_rw.

(** The text of what the comparison goroutine has printed. *)
Lemma agg_printed_tail a tm l :
  agg_printed a tm l -> comparison_tail tm (text_of render_output l).
Proof.
  destruct a; simpl; intros Hl.
  1-2: subst; constructor.
  1-2: subst; simpl; rewrite string_app_nil_r; constructor.
  destruct Hl as (o1 & o2 & H1 & H2 & ->). simpl. rewrite string_app_nil_r.
  by constructor.
Qed.

(** [render_output] of a concrete output, in right-nested form. *)
Ltac render_norm :=
  autorewrite with string_rw; cbn [render_output render_soutput]; unfold address_lines;
  autorewrite with string_rw.

(** ** Theorems *)

(** C30. The whole text main.go writes once [main] has returned, in every
    reachable state: the search line followed by exactly one of the
    timeout line, the error line of the first response, or the success
    block of the first response (its API, its duration to the
    millisecond, the five address lines), the last followed by nothing,
    the comparison header, or the header and the comparison. *)
Theorem exit_console w :
  reachable w -> w_main w = MExit -> exit_stdout w (console w).
Proof.
  intros Hreach Hm. pose proof (reachable_main_inv _ Hreach) as Hi.
  unfold main_inv in Hi. rewrite Hm in Hi. unfold console.
  destruct Hi as [(r & rest & l & Hr & He & _ & Hagg & Ho) | [(r & e & Hr & He & _ & Ho) | (Hr & _ & Ho)]];
    rewrite Ho.
  - destruct (resp_wf_address r (received_wf _ _ _ Hreach Hr) He) as [a Ha].
    unfold report. rewrite He, Ha. render_norm.
    with_strategy opaque [String.append] (eapply ExitSuccess; eauto using agg_printed_tail).
  - render_norm. with_strategy opaque [String.append] (by apply ExitApiError).
  - render_norm. with_strategy opaque [String.append] (by apply ExitTimeout).
Qed.

(** The value part_000 received is well typed. *)
Lemma sreceived_wf cep evs w r :
  srun evs (sinit cep) = Some w -> s_recvd w = [r] -> sresp_wf r.
Proof.
  intros Hrun Hr. pose proof (srun_sinv _ _ _ (sinv_init cep) Hrun) as Hi.
  eapply Forall_forall; [apply (srun_sent_wf _ _ _ Hrun)|].
  rewrite (ss_chan _ Hi), Hr. set_solver.
Qed.

(** C33. The whole text part_000 writes once [main] has returned: the
    search line followed by exactly one of the timeout line, the error
    line of the value received, or its success block, whose address the
    type switch always prints. *)
Theorem simple_exit_console cep evs w :
  srun evs (sinit cep) = Some w -> s_main w = SExit -> sexit_stdout w (sconsole w).
Proof.
  intros Hrun Hm. pose proof (srun_sinv _ _ _ (sinv_init cep) Hrun) as Hi.
  unfold sconsole.
  destruct (ss_exit _ Hi Hm) as [[Hr Ho] | (r & Hr & Ho)]; rewrite Ho.
  - render_norm. with_strategy opaque [String.append] (by apply SExitTimeout).
  - unfold sreport. destruct (SError r) as [e|] eqn:He.
    + render_norm. with_strategy opaque [String.append] (by apply SExitApiError).
    + destruct (sresp_wf_address r (sreceived_wf _ _ _ _ Hrun Hr) He) as [a Ha].
      rewrite Ha. render_norm.
      with_strategy opaque [String.append] (by eapply SExitSuccess).
Qed.



(** C32. The [Diferença] line is not a function of the difference of the
    two durations: it subtracts the two rounded [Seconds()] values, so
    two comparisons whose durations differ by the same 250.5 ms print
    different differences (fastest 80 ms or 80.012 ms). *)
Theorem difference_depends_on_operands :
  exists f1 s1 f2 s2,
    (0 <= f1 /\ f1 <= s1 < Second)%Z /\ (0 <= f2 /\ f2 <= s2 < Second)%Z /\ (s1 - f1 = s2 - f2)%Z /\
    difference_line f1 s1 <> difference_line f2 s2.
Proof.
  exists 80000000%Z, 330500000%Z, 80012000%Z, 330512000%Z.
  split_and!; [unfold Second; lia .. | lia |].
  vm_compute. intros H. discriminate H.
Qed.

(** ** Witnesses *)

Import Samples.

(** Both fetches succeed, the comparison is printed, and [main] returns. *)
Definition both_ok_exit : list Event := both_ok ++ [EvMainWake].

Lemma exit_console_witness :
  exit_stdout (after both_ok_exit) (console (after both_ok_exit)).
Proof.
  apply exit_console; [apply reachable_after | ]; vm_compute; reflexivity.
Defined.


Lemma simple_exit_console_witness :
  sexit_stdout (safter ssample) (sconsole (safter ssample)).
Proof. apply (simple_exit_console Samples.cep ssample); vm_compute; reflexivity. Defined.
